(** * University ETL service: extract, transform, load and scheduling

    A shallow embedding of the services of the repository
    (extractService.js, transformService.js, loadService.js, etlService.js,
    schedulerService.js) and the properties of its specification.

    JavaScript strings are sequences of UTF-16 code units; values are the
    JSON values the upstream API delivers plus [undefined]; exceptions are
    explicit results; the clock, the network, [Math.random] and the file
    system are components of an explicit world that the services thread. *)

From Stdlib Require Import List String Ascii Bool Arith ZArith NArith Lia.
From Stdlib Require Import QArith Qminmax Lqa DecimalString.
Import ListNotations.

Set Warnings "-register-all".
Local Close Scope Q_scope.
Local Open Scope string_scope.
Local Open Scope list_scope.

(** ** Strings as code-unit sequences *)

Module Str.

Definition jsstring := list N.

(** A literal of the source text. *)
Definition str (s : string) : jsstring :=
  map N_of_ascii (list_ascii_of_string s).

Definition hyphen : N := 45%N.
Definition space : N := 32%N.
Definition comma : N := 44%N.
Definition dquote : N := 34%N.
Definition semicolon : N := 59%N.
Definition newline : N := 10%N.
Definition colon : N := 58%N.
Definition dot : N := 46%N.

Fixpoint str_eqb (a b : jsstring) : bool :=
  match a, b with
  | [], [] => true
  | x :: a', y :: b' => N.eqb x y && str_eqb a' b'
  | _, _ => false
  end.

Definition is_empty (s : jsstring) : bool :=
  match s with [] => true | _ :: _ => false end.

(** [s.startsWith(p)] *)
Fixpoint startsWith (p s : jsstring) : bool :=
  match p, s with
  | [], _ => true
  | x :: p', y :: s' => N.eqb x y && startsWith p' s'
  | _ :: _, [] => false
  end.

(** [s.includes(c)] for a one-unit needle. *)
Definition includes (c : N) (s : jsstring) : bool := existsb (N.eqb c) s.

(** [parts.join(sep)] on strings. *)
Fixpoint join (sep : jsstring) (parts : list jsstring) : jsstring :=
  match parts with
  | [] => []
  | [p] => p
  | p :: rest => p ++ sep ++ join sep rest
  end.

(** The code units matched by [\s] and removed by [trim()]: WhiteSpace and
    LineTerminator of ECMAScript. *)
Definition is_whitespace (c : N) : bool :=
  ((9 <=? c) && (c <=? 13) || (c =? 32) || (c =? 160) || (c =? 5760)
   || (8192 <=? c) && (c <=? 8202) || (c =? 8232) || (c =? 8233)
   || (c =? 8239) || (c =? 8287) || (c =? 12288) || (c =? 65279))%N.

Fixpoint trimStart (s : jsstring) : jsstring :=
  match s with
  | [] => []
  | c :: t => if is_whitespace c then trimStart t else s
  end.

Definition trimEnd (s : jsstring) : jsstring := rev (trimStart (rev s)).

(** [s.trim()] *)
Definition trim (s : jsstring) : jsstring := trimEnd (trimStart s).

Definition head_is (p : N -> bool) (s : jsstring) : bool :=
  match s with c :: _ => p c | [] => false end.

(** [s.replace(/\s+/g, ' ')]: every maximal run of whitespace becomes one
    space. *)
Fixpoint collapse_whitespace (s : jsstring) : jsstring :=
  match s with
  | [] => []
  | c :: t =>
      if is_whitespace c
      then if head_is is_whitespace t then collapse_whitespace t
           else space :: collapse_whitespace t
      else c :: collapse_whitespace t
  end.

Definition is_hyphen (c : N) : bool := (c =? hyphen)%N.

(** The class [[a-z0-9]]. *)
Definition is_slug_char (c : N) : bool :=
  ((97 <=? c) && (c <=? 122) || (48 <=? c) && (c <=? 57))%N.

(** [s.replace(/[^a-z0-9]/g, '-')] *)
Definition replace_non_alnum (s : jsstring) : jsstring :=
  map (fun c => if is_slug_char c then c else hyphen) s.

(** [s.replace(/-+/g, '-')]: every maximal run of hyphens becomes one. *)
Fixpoint collapse_hyphens (s : jsstring) : jsstring :=
  match s with
  | [] => []
  | c :: t =>
      if is_hyphen c && head_is is_hyphen t then collapse_hyphens t
      else c :: collapse_hyphens t
  end.

Definition strip_leading_hyphen (s : jsstring) : jsstring :=
  match s with
  | c :: t => if is_hyphen c then t else s
  | [] => []
  end.

Fixpoint strip_trailing_hyphen (s : jsstring) : jsstring :=
  match s with
  | [] => []
  | [c] => if is_hyphen c then [] else [c]
  | c :: t => c :: strip_trailing_hyphen t
  end.

(** [s.replace(/^-|-$/g, '')]: the first alternative can match only at
    offset 0 and the second only at the last unit of what follows. *)
Definition strip_edge_hyphens (s : jsstring) : jsstring :=
  strip_trailing_hyphen (strip_leading_hyphen s).

(** The global replacement of every quote character by two of them, as in
    the CSV escaping of [generateCsv]. *)
Definition double_quotes (s : jsstring) : jsstring :=
  flat_map (fun c => if (c =? dquote)%N then [dquote; dquote] else [c]) s.

(** [s.replace(/[:.]/g, '-')] *)
Definition dash_colons_dots (s : jsstring) : jsstring :=
  map (fun c => if ((c =? colon) || (c =? dot))%N then hyphen else c) s.

(** Decimal rendering of array lengths, indices and counters. *)
Definition decimal (n : nat) : jsstring :=
  str (NilEmpty.string_of_uint (Nat.to_uint n)).

Definition decimalZ (z : Z) : jsstring :=
  str (NilZero.string_of_int (Z.to_int z)).

(** [arr.indexOf(x)] on an array of strings. *)
Fixpoint indexOf (x : jsstring) (arr : list jsstring) : option nat :=
  match arr with
  | [] => None
  | y :: rest =>
      if str_eqb y x then Some 0
      else match indexOf x rest with Some i => Some (S i) | None => None end
  end.

Fixpoint filter_indexed {A} (p : A -> nat -> bool) (i : nat) (l : list A)
  : list A :=
  match l with
  | [] => []
  | x :: rest =>
      if p x i then x :: filter_indexed p (S i) rest
      else filter_indexed p (S i) rest
  end.

(** [arr.filter((x, index, arr) => arr.indexOf(x) === index)] *)
Definition keep_first_occurrences (arr : list jsstring) : list jsstring :=
  filter_indexed
    (fun x i => match indexOf x arr with
                | Some j => Nat.eqb j i
                | None => false
                end) 0 arr.

End Str.
Export Str.

(** ** The host: what the engine, not the repository, defines *)

(** Kinds of TypeError the modelled code can raise. *)
Inductive TypeErrorKind :=
| NotAFunction (callee : string)
| InOperatorOnNonObject (key : string)
| ReadOfNullish (property : string).

(** JSON numbers are IEEE doubles; the services only test them for
    truthiness and print them.  Unicode lowercasing, date formatting and
    the wording of engine errors belong to the engine as well. *)
Class Host := {
  num : Type;
  num_truthy : num -> bool;
  num_to_string : num -> jsstring;
  toLowerCase : jsstring -> jsstring;
  toISOString : Z -> jsstring;
  type_error_message : TypeErrorKind -> jsstring
}.

(** ** Values, errors and results *)

Section Values.
Context {H : Host}.

Inductive JsValue :=
| JUndefined
| JNull
| JBool (b : bool)
| JNum (n : num)
| JStr (s : jsstring)
| JArr (items : list JsValue)
| JObj (props : list (jsstring * JsValue)).

Inductive JsError :=
| Error (message : jsstring)
| TypeError (kind : TypeErrorKind).

(** [error.message] *)
Definition message_of (e : JsError) : jsstring :=
  match e with
  | Error m => m
  | TypeError k => type_error_message k
  end.

(** Boolean coercion, as in [!v] and [v ? a : b]. *)
Definition truthy (v : JsValue) : bool :=
  match v with
  | JUndefined | JNull => false
  | JBool b => b
  | JNum n => num_truthy n
  | JStr s => negb (is_empty s)
  | JArr _ | JObj _ => true
  end.

(** [typeof v === 'object'] *)
Definition typeof_object (v : JsValue) : bool :=
  match v with
  | JNull | JArr _ | JObj _ => true
  | _ => false
  end.

(** [Array.isArray(v)] *)
Definition isArray (v : JsValue) : bool :=
  match v with JArr _ => true | _ => false end.

Definition is_nullish (v : JsValue) : bool :=
  match v with JUndefined | JNull => true | _ => false end.

Fixpoint lookup (k : jsstring) (props : list (jsstring * JsValue))
  : option JsValue :=
  match props with
  | [] => None
  | (k', v) :: rest => if str_eqb k' k then Some v else lookup k rest
  end.

(** [v[k]] for a value that is not null or undefined and a key [k] that is
    neither an array index, ['length'] nor a prototype member; these are
    the only keys the services read. *)
Definition get (v : JsValue) (k : jsstring) : JsValue :=
  match v with
  | JObj props => match lookup k props with Some x => x | None => JUndefined end
  | _ => JUndefined
  end.

(** [k in v] for an object or array [v], same keys as for [get]. *)
Definition has_key (v : JsValue) (k : jsstring) : bool :=
  match v with
  | JObj props => match lookup k props with Some _ => true | None => false end
  | _ => false
  end.

(** [String(v)] *)
Fixpoint to_string (v : JsValue) : jsstring :=
  match v with
  | JUndefined => str "undefined"
  | JNull => str "null"
  | JBool true => str "true"
  | JBool false => str "false"
  | JNum n => num_to_string n
  | JStr s => s
  | JArr items =>
      join [comma]
        (map (fun x => match x with
                       | JUndefined | JNull => []
                       | _ => to_string x
                       end) items)
  | JObj _ => str "[object Object]"
  end.

(** [items.join(sep)]: null and undefined elements print as nothing. *)
Definition array_join (sep : jsstring) (items : list JsValue) : jsstring :=
  join sep (map (fun x => if is_nullish x then [] else to_string x) items).

End Values.

(** Results of a call: a value or a thrown exception. *)
Inductive Outcome (E A : Type) :=
| Ok (a : A)
| Throw (e : E).
Arguments Ok {E A} a.
Arguments Throw {E A} e.

Definition is_ok {E A} (r : Outcome E A) : bool :=
  match r with Ok _ => true | Throw _ => false end.

(** ** A state-and-exception monad for the effectful services *)

Definition M (St E A : Type) : Type := St -> Outcome E A * St.

Definition ret {St E A} (a : A) : M St E A := fun w => (Ok a, w).

Definition throw {St E A} (e : E) : M St E A := fun w => (Throw e, w).

Definition bind {St E A B} (m : M St E A) (k : A -> M St E B) : M St E B :=
  fun w => match m w with
           | (Ok a, w') => k a w'
           | (Throw e, w') => (Throw e, w')
           end.

(** [try { m } catch (error) { handler error }] *)
Definition try_catch {St E A} (m : M St E A) (handler : E -> M St E A)
  : M St E A :=
  fun w => match m w with
           | (Ok a, w') => (Ok a, w')
           | (Throw e, w') => handler e w'
           end.

Definition lift {St E A} (r : Outcome E A) : M St E A := fun w => (r, w).

(** Running [m] inside a [try] whose [catch] is given later: the outcome
    becomes a value. *)
Definition observe {St E A} (m : M St E A) : M St E (Outcome E A) :=
  fun w => let (r, w') := m w in (Ok r, w').

Declare Scope js_scope.
Delimit Scope js_scope with js.
Notation "x <- m ;; k" := (bind m (fun x => k))
  (at level 61, m at next level, right associativity) : js_scope.
Notation "m ;;; k" := (bind m (fun _ => k))
  (at level 61, right associativity) : js_scope.

Local Open Scope js_scope.

(** ** The world the services run in *)

Section World.
Context {H : Host}.

(** Why an axios call was rejected: [error.response], [error.request] or
    neither. *)
Inductive AxiosError :=
| WithResponse (status : Z) (statusText : jsstring)
| WithRequest (message : jsstring)
| Setup (message : jsstring).

(** An axios call resolves with a response, of which the services read
    [data] only, or is rejected. *)
Inductive AxiosOutcome :=
| Resolved (data : JsValue)
| Rejected (e : AxiosError).

(** An entry of [metadata.errors]. *)
Record TransformError := {
  index : nat;
  record : JsValue;
  error : jsstring
}.

(** The [metadata] of a batch. *)
Record Metadata := {
  totalRecords : nat;
  successfulTransformations : nat;
  failedTransformations : nat;
  transformationDate : jsstring;
  errors : list TransformError
}.

(** The result of [transformData]. *)
Record TransformResult := {
  data : list JsValue;
  metadata : Metadata
}.

(** A source of successive answers of the environment. *)
Record Oracle (A : Type) := {
  answer : nat -> A;
  asked : nat
}.
Arguments answer {A} o n.
Arguments asked {A} o.

(** The next answer, and the oracle after it. *)
Definition ask {A} (o : Oracle A) : A * Oracle A :=
  (answer o (asked o), {| answer := answer o; asked := S (asked o) |}).

(** The files of [config.storage].  The JSON file holds
    [JSON.stringify(batch)]; it is kept here as the batch itself.
    [faults] tells which calls of the [fs] module fail, and with what
    message. *)
Record Disk := {
  jsonFile : option TransformResult;
  csvFile : option jsstring;
  backupFiles : list (jsstring * TransformResult);
  faults : Oracle (option jsstring)
}.

(** What the services observe and change outside themselves; [slept]
    logs the waits between attempts. *)
Record World := {
  clock : Oracle Z;
  network : Oracle AxiosOutcome;
  entropy : Oracle Q;
  slept : list Q;
  disk : Disk
}.

(** Computations of the services: they thread the world and may throw. *)
Definition IO := M World JsError.

(** [Date.now()] and [new Date()], in milliseconds. *)
Definition now : IO Z :=
  fun w =>
    let (t, c) := ask (clock w) in
    (Ok t, {| clock := c; network := network w; entropy := entropy w;
              slept := slept w; disk := disk w |}).

(** [axios(requestConfig)] *)
Definition axios : IO AxiosOutcome :=
  fun w =>
    let (r, n) := ask (network w) in
    (Ok r, {| clock := clock w; network := n; entropy := entropy w;
              slept := slept w; disk := disk w |}).

(** [Math.random()] *)
Definition random : IO Q :=
  fun w =>
    let (r, e) := ask (entropy w) in
    (Ok r, {| clock := clock w; network := network w; entropy := e;
              slept := slept w; disk := disk w |}).

(** A call into the [fs] module that changes the disk by [effect] unless
    the environment makes it fail. *)
Definition fs_call (effect : Disk -> Outcome JsError Disk) : IO unit :=
  fun w =>
    let d := disk w in
    let (fault, f) := ask (faults d) in
    let d0 := {| jsonFile := jsonFile d; csvFile := csvFile d;
                 backupFiles := backupFiles d; faults := f |} in
    let with_disk d' := {| clock := clock w; network := network w;
                           entropy := entropy w; slept := slept w;
                           disk := d' |} in
    match fault with
    | Some msg => (Throw (Error msg), with_disk d0)
    | None =>
        match effect d0 with
        | Ok d1 => (Ok tt, with_disk d1)
        | Throw e => (Throw e, with_disk d0)
        end
    end.

End World.

Arguments answer {A} o n.
Arguments asked {A} o.

(** ** extractService.js *)

Module ExtractService.
Section WithHost.
Context {H : Host}.

(** The fields the constructor copies from [config.api] and the retry
    logic reads. *)
Record Config := {
  retryAttempts : Z;
  retryDelay : Q;
  maxRetryDelay : Q
}.

(** [config.api] of config.js. *)
Definition default_config : Config :=
  {| retryAttempts := 3; retryDelay := 1000; maxRetryDelay := 10000 |}.

(** [makeApiRequest]: the response, represented by its [data]. *)
Definition makeApiRequest : IO JsValue :=
  r <- axios ;;
  match r with
  | Resolved d => ret d
  | Rejected (WithResponse status statusText) =>
      throw (Error (str "API request failed with status " ++ decimalZ status
                    ++ str ": " ++ statusText))
  | Rejected (WithRequest message) =>
      throw (Error (str "No response received from API: " ++ message))
  | Rejected (Setup message) =>
      throw (Error (str "Request setup failed: " ++ message))
  end.

(** The arithmetic of [calculateRetryDelay], given the value drawn from
    [Math.random()]. *)
Definition retry_delay (cfg : Config) (attempt : Z) (rnd : Q) : Q :=
  let exponentialDelay := (retryDelay cfg * 2 ^ (attempt - 1))%Q in
  let jitter := (rnd * 1000)%Q in
  Qmin (exponentialDelay + jitter)%Q (maxRetryDelay cfg).

Definition calculateRetryDelay (cfg : Config) (attempt : Z) : IO Q :=
  rnd <- random ;;
  ret (retry_delay cfg attempt rnd).

(** [sleep(ms)]: the wait is recorded, latest first. *)
Definition sleep (ms : Q) : IO unit :=
  fun w => (Ok tt, {| clock := clock w; network := network w;
                      entropy := entropy w; slept := ms :: slept w;
                      disk := disk w |}).

(** The body of the [try] block of one iteration of [extractData]. *)
Definition attempt_once : IO JsValue :=
  response_data <- makeApiRequest ;;
  if negb (truthy response_data) || negb (isArray response_data)
  then throw (Error (str "Invalid response format: expected array of universities"))
  else ret response_data.

(** The [for] loop of [extractData] from iteration [attempt] on, with
    [remaining] iterations to go, and the statements after it. *)
Fixpoint extract_loop (cfg : Config) (remaining : nat) (attempt : Z)
    (lastError : option JsError) : IO JsValue :=
  match remaining with
  | O =>
      match lastError with
      | None => throw (TypeError (ReadOfNullish "message"))
      | Some e =>
          throw (Error (str "Failed to extract data after "
                        ++ decimalZ (retryAttempts cfg)
                        ++ str " attempts: " ++ message_of e))
      end
  | S remaining' =>
      try_catch attempt_once
        (fun error =>
           (if (attempt <? retryAttempts cfg)%Z
            then delay <- calculateRetryDelay cfg attempt ;; sleep delay
            else ret tt) ;;;
           extract_loop cfg remaining' (attempt + 1)%Z (Some error))
  end.

(** [extractData]: [attempt] runs from 1 while [attempt <= retryAttempts]. *)
Definition extractData (cfg : Config) : IO JsValue :=
  extract_loop cfg (Z.to_nat (retryAttempts cfg)) 1%Z None.

(** [field in sample] *)
Definition in_operator (field : string) (sample : JsValue)
  : Outcome JsError bool :=
  match sample with
  | JObj _ | JArr _ => Ok (has_key sample (str field))
  | _ => Throw (TypeError (InOperatorOnNonObject field))
  end.

(** The loop over [requiredFields] of [validateExtractedData]. *)
Fixpoint has_fields (fields : list string) (sample : JsValue)
  : Outcome JsError bool :=
  match fields with
  | [] => Ok true
  | field :: rest =>
      match in_operator field sample with
      | Ok true => has_fields rest sample
      | Ok false => Ok false
      | Throw e => Throw e
      end
  end.

Definition validateExtractedData (d : JsValue) : Outcome JsError bool :=
  match d with
  | JArr [] => Ok true
  | JArr (sample :: _) => has_fields ["name"; "country"] sample
  | _ => Ok false
  end.

(** The methods the class body defines. *)
Definition methods : list string :=
  ["extractData"; "makeApiRequest"; "calculateRetryDelay"; "sleep";
   "validateExtractedData"].

End WithHost.
End ExtractService.

(** ** transformService.js *)

Module TransformService.
Section WithHost.
Context {H : Host}.

Definition requiredFields : list string := ["name"; "country"].

(** The test of one required field in [transformRecord]. *)
Definition required_field_ok (v : JsValue) : bool :=
  match v with
  | JStr s => truthy v && negb (is_empty (trim s))
  | _ => false
  end.

(** The loop over [requiredFields] of [transformRecord]. *)
Fixpoint check_required (fields : list string) (record : JsValue)
  : Outcome JsError unit :=
  match fields with
  | [] => Ok tt
  | field :: rest =>
      if required_field_ok (get record (str field))
      then check_required rest record
      else Throw (Error (str "Missing or invalid required field '"
                         ++ str field ++ str "'"))
  end.

(** [v.toLowerCase()] for the value [v] of the expression [expr]. *)
Definition call_toLowerCase (expr : string) (v : JsValue)
  : Outcome JsError jsstring :=
  match v with
  | JStr s => Ok (toLowerCase s)
  | JUndefined | JNull => Throw (TypeError (ReadOfNullish "toLowerCase"))
  | _ => Throw (TypeError (NotAFunction (expr ++ ".toLowerCase")))
  end.

Definition bind_outcome {E A B} (r : Outcome E A) (k : A -> Outcome E B)
  : Outcome E B :=
  match r with
  | Ok a => k a
  | Throw e => Throw e
  end.

(** [generateId] *)
Definition generateId (record : JsValue) : Outcome JsError jsstring :=
  bind_outcome (call_toLowerCase "record.name" (get record (str "name")))
    (fun name_lower =>
  let name := replace_non_alnum name_lower in
  bind_outcome (call_toLowerCase "record.country" (get record (str "country")))
    (fun country_lower =>
  let country := replace_non_alnum country_lower in
  bind_outcome
    (if truthy (get record (str "state-province"))
     then bind_outcome
            (call_toLowerCase "record['state-province']"
               (get record (str "state-province")))
            (fun s => Ok (replace_non_alnum s))
     else Ok [])
    (fun state =>
  Ok (strip_edge_hyphens
        (collapse_hyphens
           (country ++ [hyphen]
            ++ (if negb (is_empty state) then state ++ [hyphen] else [])
            ++ name)))))).

(** [sanitizeString] *)
Definition sanitizeString (v : JsValue) : jsstring :=
  match v with
  | JStr s => collapse_whitespace (trim s)
  | _ => to_string v
  end.

(** The entries kept by
    [filter(x => typeof x === 'string' && x.trim() !== '')]. *)
Definition nonblank_strings (items : list JsValue) : list jsstring :=
  flat_map (fun v => match v with
                     | JStr s => if is_empty (trim s) then [] else [s]
                     | _ => []
                     end) items.

(** [transformDomains] *)
Definition transformDomains (domains : JsValue) : list jsstring :=
  match domains with
  | JArr items =>
      keep_first_occurrences
        (map (fun domain => toLowerCase (trim domain)) (nonblank_strings items))
  | _ => []
  end.

(** [transformWebPages] *)
Definition transformWebPages (webPages : JsValue) : list jsstring :=
  match webPages with
  | JArr items =>
      keep_first_occurrences
        (map (fun url =>
                let trimmed := trim url in
                if negb (startsWith (str "http://") trimmed)
                   && negb (startsWith (str "https://") trimmed)
                then str "https://" ++ trimmed
                else trimmed)
             (nonblank_strings items))
  | _ => []
  end.

Definition typeof_string (v : JsValue) : bool :=
  match v with JStr _ => true | _ => false end.

(** [validateTransformedRecord] *)
Definition validateTransformedRecord (record : JsValue) : bool :=
  if negb (truthy (get record (str "id")))
     || negb (truthy (get record (str "name")))
     || negb (truthy (get record (str "country")))
  then false
  else if negb (typeof_string (get record (str "name")))
          || negb (typeof_string (get record (str "country")))
  then false
  else if negb (isArray (get record (str "domains")))
          || negb (isArray (get record (str "webPages")))
  then false
  else true.

(** The object literal of [transformRecord], given the generated id and
    the value of [new Date().toISOString()]. *)
Definition build_record (record : JsValue) (id lastUpdated : jsstring)
  : JsValue :=
  JObj
    [ (str "id", JStr id);
      (str "name", JStr (sanitizeString (get record (str "name"))));
      (str "country", JStr (sanitizeString (get record (str "country"))));
      (str "alphaCode",
        if truthy (get record (str "alpha_two_code"))
        then JStr (sanitizeString (get record (str "alpha_two_code")))
        else JNull);
      (str "stateProvince",
        if truthy (get record (str "state-province"))
        then JStr (sanitizeString (get record (str "state-province")))
        else JNull);
      (str "domains",
        JArr (map JStr (transformDomains (get record (str "domains")))));
      (str "webPages",
        JArr (map JStr (transformWebPages (get record (str "web_pages")))));
      (str "lastUpdated", JStr lastUpdated) ].

(** [transformRecord] up to the object literal: the type check, the
    required fields, and [generateId], the first property of the literal. *)
Definition prepare (record : JsValue) (index : nat)
  : Outcome JsError jsstring :=
  if negb (truthy record) || negb (typeof_object record)
  then Throw (Error (str "Invalid record type at index " ++ decimal index
                     ++ str ": expected object"))
  else
    bind_outcome (check_required requiredFields record) (fun _ =>
    generateId record).

(** [transformRecord(record, index)]: the clock is read for the last
    property of the literal. *)
Definition transformRecord (record : JsValue) (index : nat) : IO JsValue :=
  id <- lift (prepare record index) ;;
  t <- now ;;
  let transformed := build_record record id (toISOString t) in
  if negb (validateTransformedRecord transformed)
  then throw (Error (str "Transformed record failed validation"))
  else ret transformed.

(** The [for] loop of [transformData] from index [i] on; [push] appends. *)
Fixpoint transform_loop (rest : list JsValue) (i : nat)
    (transformedData : list JsValue) (errs : list TransformError)
  : IO (list JsValue * list TransformError) :=
  match rest with
  | [] => ret (transformedData, errs)
  | raw :: rest' =>
      attempt <- observe (transformRecord raw i) ;;
      match attempt with
      | Ok transformedRecord =>
          transform_loop rest' (S i)
            (if truthy transformedRecord
             then transformedData ++ [transformedRecord]
             else transformedData)
            errs
      | Throw e =>
          transform_loop rest' (S i) transformedData
            (errs ++ [{| index := i; record := raw; error := message_of e |}])
      end
  end.

(** [transformData]; the first statement reads [rawData.length]. *)
Definition transformData (rawData : JsValue) : IO TransformResult :=
  match rawData with
  | JUndefined | JNull => throw (TypeError (ReadOfNullish "length"))
  | JArr items =>
      r <- transform_loop items 0 [] [] ;;
      let (transformedData, errs) := r in
      t <- now ;;
      ret {| data := transformedData;
             metadata :=
               {| totalRecords := List.length items;
                  successfulTransformations := List.length transformedData;
                  failedTransformations := List.length errs;
                  transformationDate := toISOString t;
                  errors := errs |} |}
  | _ => throw (Error (str "Input data must be an array"))
  end.

End WithHost.
End TransformService.

(** ** loadService.js *)

Module LoadService.
Section WithHost.
Context {H : Host}.

Definition headers : list string :=
  ["id"; "name"; "country"; "alphaCode"; "state"; "domains"; "webPages";
   "updatedAt"].

(** The body of [headers.map(header => ...)] for one header. *)
Definition csv_cell (record : JsValue) (header : string)
  : Outcome JsError jsstring :=
  if is_nullish record then Throw (TypeError (ReadOfNullish header))
  else
    let value := get record (str header) in
    let value := match value with
                 | JArr items => JStr (array_join [semicolon] items)
                 | _ => value
                 end in
    let value := if is_nullish value then JStr [] else value in
    let value := to_string value in
    Ok (if includes comma value || includes dquote value
        then [dquote] ++ double_quotes value ++ [dquote]
        else value).

Fixpoint map_outcome {A B} (f : A -> Outcome JsError B) (l : list A)
  : Outcome JsError (list B) :=
  match l with
  | [] => Ok []
  | x :: rest =>
      match f x with
      | Throw e => Throw e
      | Ok y => match map_outcome f rest with
                | Throw e => Throw e
                | Ok ys => Ok (y :: ys)
                end
      end
  end.

Definition csv_row (record : JsValue) : Outcome JsError jsstring :=
  match map_outcome (csv_cell record) headers with
  | Ok row => Ok (join [comma] row)
  | Throw e => Throw e
  end.

(** [csvLines.join('\n')] for a non-empty [data]. *)
Definition csv_text (records : list JsValue) : Outcome JsError jsstring :=
  match map_outcome csv_row records with
  | Ok rows => Ok (join [newline] (join [comma] (map str headers) :: rows))
  | Throw e => Throw e
  end.

Definition set_json (content : TransformResult) (d : Disk) : Disk :=
  {| jsonFile := Some content; csvFile := csvFile d;
     backupFiles := backupFiles d; faults := faults d |}.

Definition set_csv (content : jsstring) (d : Disk) : Disk :=
  {| jsonFile := jsonFile d; csvFile := Some content;
     backupFiles := backupFiles d; faults := faults d |}.

(** [generateCsv] *)
Definition generateCsv (records : list JsValue) : IO unit :=
  match records with
  | [] => ret tt
  | _ :: _ =>
      text <- lift (csv_text records) ;;
      fs_call (fun d => Ok (set_csv text d))
  end.

(** [ensureDirectories]: two [mkdir] calls; directories are not part of
    the modelled disk. *)
Definition ensureDirectories : IO unit :=
  fs_call (fun d => Ok d) ;;;
  fs_call (fun d => Ok d).

(** [fs.access(jsonPath)] *)
Definition access_json : IO unit :=
  fs_call (fun d => match jsonFile d with
                    | Some _ => Ok d
                    | None => Throw (Error (str "ENOENT"))
                    end).

(** [fs.copyFile(jsonPath, backupPath)] *)
Definition copy_json_to (backupPath : jsstring) : IO unit :=
  fs_call (fun d => match jsonFile d with
                    | Some content =>
                        Ok {| jsonFile := jsonFile d; csvFile := csvFile d;
                              backupFiles := (backupPath, content) :: backupFiles d;
                              faults := faults d |}
                    | None => Throw (Error (str "ENOENT"))
                    end).

(** [backupExisting]: every failure is swallowed. *)
Definition backupExisting : IO unit :=
  try_catch
    (access_json ;;;
     t <- now ;;
     let timestamp := dash_colons_dots (toISOString t) in
     copy_json_to (str "universities-" ++ timestamp ++ str ".json"))
    (fun _ => ret tt).

(** The part of the result of [saveData] that callers read. *)
Record LoadResult := { recordsLoaded : nat }.

(** [saveData] *)
Definition saveData (batch : TransformResult) : IO LoadResult :=
  ensureDirectories ;;;
  backupExisting ;;;
  fs_call (fun d => Ok (set_json batch d)) ;;;
  generateCsv (data batch) ;;;
  ret {| recordsLoaded := List.length (data batch) |}.

(** Why [fs.readFile(jsonPath)] fails: the file does not exist, the error
    whose [code] is ['ENOENT'], or the environment fails the call with
    another error. *)
Inductive ReadError :=
| NoSuchFile
| ReadFault (message : jsstring).

(** [fs.readFile(jsonPath, 'utf8')] *)
Definition read_json : M World ReadError TransformResult :=
  fun w =>
    let d := disk w in
    let (fault, f) := ask (faults d) in
    let w' := {| clock := clock w; network := network w;
                 entropy := entropy w; slept := slept w;
                 disk := {| jsonFile := jsonFile d; csvFile := csvFile d;
                            backupFiles := backupFiles d; faults := f |} |} in
    match fault with
    | Some msg => (Throw (ReadFault msg), w')
    | None =>
        match jsonFile d with
        | Some content => (Ok content, w')
        | None => (Throw NoSuchFile, w')
        end
    end.

(** [readData]: [null] when there is no file, the parsed content
    otherwise; any other error is thrown on. *)
Definition readData : IO (option TransformResult) :=
  fun w =>
    match read_json w with
    | (Ok content, w') => (Ok (Some content), w')
    | (Throw NoSuchFile, w') => (Ok None, w')
    | (Throw (ReadFault msg), w') => (Throw (Error msg), w')
    end.

End WithHost.
End LoadService.

(** ** etlService.js *)

Module ETLService.
Section WithHost.
Context {H : Host}.

(** The value [run] returns. *)
Record RunResult := {
  success : bool;
  duration : Z;
  extracted : nat;
  transformed : nat;
  loaded : nat
}.

(** Evaluation of the callee of [object.name(...)]: a name that the class
    of [object] does not define evaluates to [undefined], and calling it
    throws. *)
Definition resolve_method (methods : list string) (object name : string)
  : Outcome JsError unit :=
  if existsb (String.eqb name) methods then Ok tt
  else Throw (TypeError (NotAFunction (object ++ "." ++ name))).

(** [rawData.length] *)
Definition array_length (v : JsValue) : nat :=
  match v with JArr items => List.length items | _ => 0 end.

(** [run]; the constructor makes [this.extract] an [ExtractService].  The
    callee [this.extract.validateData] is evaluated before the call; the
    validator of the class, [validateExtractedData], stands for what a call
    that resolves would do. *)
Definition run (cfg : ExtractService.Config) : IO RunResult :=
  start <- now ;;
  try_catch
    (rawData <- ExtractService.extractData cfg ;;
     lift (resolve_method ExtractService.methods "this.extract"
             "validateData") ;;;
     valid <- lift (ExtractService.validateExtractedData rawData) ;;
     (if negb valid then throw (Error (str "Invalid data from API"))
      else ret tt) ;;;
     transformResult <- TransformService.transformData rawData ;;
     loadResult <- LoadService.saveData transformResult ;;
     finish <- now ;;
     ret {| success := true;
            duration := finish - start;
            extracted := array_length rawData;
            transformed := List.length (data transformResult);
            loaded := LoadService.recordsLoaded loadResult |})
    (fun error => now ;;; throw error).

(** The value of a property of [metadata]. *)
Inductive MetaValue :=
| MetaCount (n : nat)
| MetaText (s : jsstring)
| MetaErrors (l : list TransformError).

(** [metadata[key]]: the object has the five properties that
    [transformData] gives it. *)
Definition metadata_property (m : Metadata) (key : string)
  : option MetaValue :=
  if String.eqb key "totalRecords" then Some (MetaCount (totalRecords m))
  else if String.eqb key "successfulTransformations"
  then Some (MetaCount (successfulTransformations m))
  else if String.eqb key "failedTransformations"
  then Some (MetaCount (failedTransformations m))
  else if String.eqb key "transformationDate"
  then Some (MetaText (transformationDate m))
  else if String.eqb key "errors" then Some (MetaErrors (errors m))
  else None.

Definition meta_truthy (v : MetaValue) : bool :=
  match v with
  | MetaCount n => negb (Nat.eqb n 0)
  | MetaText s => negb (is_empty s)
  | MetaErrors _ => true
  end.

(** The value [getStatus] returns; [None] stands for [null]. *)
Record Status := {
  hasData : bool;
  recordCount : nat;
  lastUpdate : option MetaValue
}.

(** [getStatus] *)
Definition getStatus : IO Status :=
  snapshot <- LoadService.readData ;;
  ret {| hasData := match snapshot with Some _ => true | None => false end;
         recordCount := match snapshot with
                        | Some batch => List.length (data batch)
                        | None => 0
                        end;
         lastUpdate :=
           match snapshot with
           | Some batch =>
               match metadata_property (metadata batch) "timestamp" with
               | Some v => if meta_truthy v then Some v else None
               | None => None
               end
           | None => None
           end |}.

End WithHost.
End ETLService.

(** ** schedulerService.js *)

Module SchedulerService.
Section WithHost.
Context {H : Host}.

(** An element of [this.history]; scheduled runs leave [type] out. *)
Record HistoryEntry := {
  timestamp : jsstring;
  success : bool;
  duration : Z;
  records : option nat;
  error : option jsstring;
  type : option jsstring
}.

(** The fields of the service; [job] is true when a cron job is held. *)
Record Scheduler := {
  job : bool;
  running : bool;
  history : list HistoryEntry
}.

(** The state the constructor builds. *)
Definition initial : Scheduler :=
  {| job := false; running := false; history := [] |}.

Definition set_running (b : bool) (s : Scheduler) : Scheduler :=
  {| job := job s; running := b; history := history s |}.

(** [this.history.unshift(entry); this.history = this.history.slice(0, 10)] *)
Definition record_outcome (entry : HistoryEntry) (s : Scheduler) : Scheduler :=
  {| job := job s; running := running s;
     history := firstn 10 (entry :: history s) |}.

Definition start (s : Scheduler) : Scheduler :=
  if job s then s
  else {| job := true; running := running s; history := history s |}.

Definition stop (s : Scheduler) : Scheduler :=
  if job s
  then {| job := false; running := running s; history := history s |}
  else s.

(** [runETL] up to [await this.etl.run()]: [None] when the firing is
    skipped. *)
Definition runETL_enter (s : Scheduler) : option Scheduler :=
  if running s then None else Some (set_running true s).

(** The entry a firing records: [finished] is [Date.now()] read after the
    run settled, [stamp] the following [new Date()]. *)
Definition outcome_entry (kind : option jsstring) (started finished stamp : Z)
    (result : Outcome JsError ETLService.RunResult) : HistoryEntry :=
  match result with
  | Ok r =>
      {| timestamp := toISOString stamp; success := true;
         duration := finished - started;
         records := Some (ETLService.loaded r); error := None; type := kind |}
  | Throw e =>
      {| timestamp := toISOString stamp; success := false;
         duration := finished - started;
         records := None; error := Some (message_of e); type := kind |}
  end.

(** [runETL] from the point where [this.etl.run()] settles with [result],
    through [finally]. *)
Definition runETL_resume (started finished stamp : Z)
    (result : Outcome JsError ETLService.RunResult) (s : Scheduler)
  : Scheduler :=
  set_running false
    (record_outcome (outcome_entry None started finished stamp result) s).

(** [runManual] up to [await this.etl.run()]. *)
Definition runManual_enter (s : Scheduler) : Outcome JsError unit * Scheduler :=
  if running s then (Throw (Error (str "ETL already running")), s)
  else (Ok tt, set_running true s).

(** [runManual] from the point where [this.etl.run()] settles: the record
    is returned on success and thrown on failure. *)
Definition runManual_resume (started finished stamp : Z)
    (result : Outcome JsError ETLService.RunResult) (s : Scheduler)
  : Outcome HistoryEntry HistoryEntry * Scheduler :=
  let entry :=
    outcome_entry (Some (str "manual")) started finished stamp result in
  let s' := set_running false (record_outcome entry s) in
  match result with
  | Ok _ => (Ok entry, s')
  | Throw _ => (Throw entry, s')
  end.

(** [getStatus] *)
Definition getStatus (s : Scheduler) : bool * bool * list HistoryEntry :=
  (job s, running s, firstn 5 (history s)).

(** Milliseconds in a day. *)
Definition msPerDay : Z := 86400000.

(** The time value of [nextRun] in [getNextExecution], [current] being the
    time value of [new Date()]: [setUTCDate(getUTCDate() + 1)] moves it one
    day on and [setUTCHours(0, 0, 0, 0)] back to the start of its day. *)
Definition nextRun (current : Z) : Z :=
  ((current + msPerDay) / msPerDay * msPerDay)%Z.

(** [getNextExecution] *)
Definition getNextExecution (current : Z) : jsstring :=
  toISOString (nextRun current).

(** *** Interleavings

    Between the two halves of a firing the event loop may run other
    calls.  A configuration holds the service and the calls suspended at
    their [await]. *)

Inductive Trigger := Scheduled | Manual.

(** A call of [runETL] or [runManual] waiting for [this.etl.run()], with
    its local [start]. *)
Record Suspended := {
  trigger : Trigger;
  started_at : Z
}.

Record Configuration := {
  service : Scheduler;
  suspended : list Suspended
}.

(** What the event loop runs next: a call of [start] or [stop], the cron
    job calling [runETL] or a request calling [runManual] when [Date.now()]
    is [t], or the run awaited by the [n]-th suspended call settling with
    [result], after which the clock is read twice. *)
Inductive Event :=
| CallStart
| CallStop
| CronFires (t : Z)
| ManualRequest (t : Z)
| RunSettles (n : nat) (result : Outcome JsError ETLService.RunResult)
    (finished stamp : Z).

(** What the caller of the event observes. *)
Inductive Reply :=
| Nothing
| Rejected (e : JsError)
| Returned (entry : HistoryEntry)
| Thrown (entry : HistoryEntry).

(** The list without its [n]-th element. *)
Fixpoint remove_nth {A} (n : nat) (l : list A) : list A :=
  match n, l with
  | _, [] => []
  | O, _ :: rest => rest
  | S n', x :: rest => x :: remove_nth n' rest
  end.

(** One turn of the event loop. *)
Definition step (c : Configuration) (e : Event) : Configuration * Reply :=
  match e with
  | CallStart =>
      ({| service := start (service c); suspended := suspended c |}, Nothing)
  | CallStop =>
      ({| service := stop (service c); suspended := suspended c |}, Nothing)
  | CronFires t =>
      match runETL_enter (service c) with
      | None => (c, Nothing)
      | Some s =>
          ({| service := s;
              suspended := {| trigger := Scheduled; started_at := t |}
                           :: suspended c |}, Nothing)
      end
  | ManualRequest t =>
      match runManual_enter (service c) with
      | (Throw e, s) => ({| service := s; suspended := suspended c |}, Rejected e)
      | (Ok _, s) =>
          ({| service := s;
              suspended := {| trigger := Manual; started_at := t |}
                           :: suspended c |}, Nothing)
      end
  | RunSettles n result finished stamp =>
      match nth_error (suspended c) n with
      | None => (c, Nothing)
      | Some p =>
          match trigger p with
          | Scheduled =>
              ({| service := runETL_resume (started_at p) finished stamp
                               result (service c);
                  suspended := remove_nth n (suspended c) |}, Nothing)
          | Manual =>
              match runManual_resume (started_at p) finished stamp result
                      (service c) with
              | (Ok entry, s) =>
                  ({| service := s;
                      suspended := remove_nth n (suspended c) |},
                   Returned entry)
              | (Throw entry, s) =>
                  ({| service := s;
                      suspended := remove_nth n (suspended c) |},
                   Thrown entry)
              end
          end
      end
  end.

(** The configuration after [new SchedulerService()]. *)
Definition boot : Configuration :=
  {| service := initial; suspended := [] |}.

(** The configuration after a sequence of events. *)
Fixpoint run_events (c : Configuration) (es : list Event) : Configuration :=
  match es with
  | [] => c
  | e :: rest => run_events (fst (step c e)) rest
  end.

End WithHost.
End SchedulerService.

(** ** index.js and routes/api.js *)

Module Server.
Section WithHost.
Context {H : Host}.
Import SchedulerService.

(** The two schedulers of the process: [index.js] makes one and starts
    it, [routes/api.js] makes another for its handlers. *)
Record Process := {
  startup : Configuration;
  api : Configuration
}.

(** The process after [index.js] has been loaded: [scheduler.start()] is
    called on the scheduler of [index.js] only. *)
Definition launch : Process :=
  {| startup := fst (step boot CallStart); api := boot |}.

(** What the event loop of the process runs next: the cron job of one of
    the schedulers calling its [runETL] when [Date.now()] is [t], one of
    the POST requests of the router, the SIGTERM handler, or the run
    awaited by a suspended call of one of the schedulers settling. *)
Inductive Happening :=
| StartupCron (t : Z)
| ApiCron (t : Z)
| PostEtlRun (t : Z)
| PostSchedulerStart
| PostSchedulerStop
| Sigterm
| StartupSettles (n : nat) (result : Outcome JsError ETLService.RunResult)
    (finished stamp : Z)
| ApiSettles (n : nat) (result : Outcome JsError ETLService.RunResult)
    (finished stamp : Z).

Definition on_startup (p : Process) (e : Event) : Process * Reply :=
  let (c, r) := step (startup p) e in ({| startup := c; api := api p |}, r).

Definition on_api (p : Process) (e : Event) : Process * Reply :=
  let (c, r) := step (api p) e in ({| startup := startup p; api := c |}, r).

(** One turn of the event loop of the process; a cron job calls back only
    while its scheduler holds it. *)
Definition advance (p : Process) (h : Happening) : Process * Reply :=
  match h with
  | StartupCron t =>
      if job (service (startup p)) then on_startup p (CronFires t)
      else (p, Nothing)
  | ApiCron t =>
      if job (service (api p)) then on_api p (CronFires t)
      else (p, Nothing)
  | PostEtlRun t => on_api p (ManualRequest t)
  | PostSchedulerStart => on_api p CallStart
  | PostSchedulerStop => on_api p CallStop
  | Sigterm => on_startup p CallStop
  | StartupSettles n result finished stamp =>
      on_startup p (RunSettles n result finished stamp)
  | ApiSettles n result finished stamp =>
      on_api p (RunSettles n result finished stamp)
  end.

(** The process after a sequence of turns. *)
Fixpoint play (p : Process) (hs : list Happening) : Process :=
  match hs with
  | [] => p
  | h :: rest => play (fst (advance p h)) rest
  end.

(** The body of the answer to [GET /etl/history]. *)
Definition etl_history (p : Process) : list HistoryEntry :=
  snd (getStatus (service (api p))).

End WithHost.
End Server.

(** ** A host for concrete runs

    Numbers are integers, printed in decimal; lowercasing covers the
    letters A to Z; a date is rendered as T followed by its milliseconds;
    the texts of engine errors are schematic. *)

Definition ascii_lower (s : jsstring) : jsstring :=
  map (fun c => if ((65 <=? c) && (c <=? 90))%N then (c + 32)%N else c) s.

Definition describe_type_error (k : TypeErrorKind) : jsstring :=
  match k with
  | NotAFunction callee => str callee ++ str " is not a function"
  | InOperatorOnNonObject key =>
      str "Cannot use 'in' operator to search for '" ++ str key ++ str "'"
  | ReadOfNullish property =>
      str "Cannot read properties of undefined (reading '" ++ str property
      ++ str "')"
  end.

Definition sample_host : Host :=
  {| num := Z;
     num_truthy := fun z => negb (Z.eqb z 0);
     num_to_string := decimalZ;
     toLowerCase := ascii_lower;
     toISOString := fun t => str "T" ++ decimalZ t;
     type_error_message := describe_type_error |}.

(** * The vocabulary of the properties *)

Section Vocabulary.
Context {H : Host}.

(** The value the next call of [Math.random()] yields in [w]. *)
Definition next_random (w : World) : Q :=
  answer (entropy w) (asked (entropy w)).

(** Why an attempt that receives [r] from the network fails, if it does:
    the message of the error caught by the loop. *)
Definition attempt_failure (r : AxiosOutcome) : option jsstring :=
  match r with
  | Resolved d =>
      if isArray d then None
      else Some (str "Invalid response format: expected array of universities")
  | Rejected (WithResponse status statusText) =>
      Some (str "API request failed with status " ++ decimalZ status
            ++ str ": " ++ statusText)
  | Rejected (WithRequest message) =>
      Some (str "No response received from API: " ++ message)
  | Rejected (Setup message) =>
      Some (str "Request setup failed: " ++ message)
  end.

(** The answer the network gives to the [k]-th request from [w] on,
    counting from 0. *)
Definition response_at (w : World) (k : nat) : AxiosOutcome :=
  answer (network w) (asked (network w) + k).

(** How many requests have been sent when the world is [w]. *)
Definition requests_made (w : World) : nat := asked (network w).

(** The message of the error [extractData] throws after its last attempt. *)
Definition failure_text (cfg : ExtractService.Config) (cause : jsstring)
  : jsstring :=
  str "Failed to extract data after "
  ++ decimalZ (ExtractService.retryAttempts cfg)
  ++ str " attempts: " ++ cause.

(** The value the next reading of the clock yields in [w]. *)
Definition next_time (w : World) : Z :=
  answer (clock w) (asked (clock w)).

(** What becomes of a record, whatever the time: the error that rejects
    it, or the id under which it is accepted.  The final shape check is
    made on the record as built with an empty time stamp, which it does
    not read. *)
Definition verdict (record : JsValue) (index : nat)
  : Outcome JsError jsstring :=
  TransformService.bind_outcome (TransformService.prepare record index)
    (fun id =>
       if TransformService.validateTransformedRecord
            (TransformService.build_record record id [])
       then Ok id
       else Throw (Error (str "Transformed record failed validation"))).

(** The elements of an array with their indices. *)
Definition indexed (items : list JsValue) : list (nat * JsValue) :=
  combine (seq 0 (List.length items)) items.

(** The inputs that are accepted, in input order. *)
Definition accepted (inputs : list (nat * JsValue)) : list (nat * JsValue) :=
  filter (fun '(i, raw) => is_ok (verdict raw i)) inputs.

(** The failures of the rejected inputs, in input order. *)
Definition rejected (inputs : list (nat * JsValue)) : list TransformError :=
  flat_map
    (fun '(i, raw) =>
       match verdict raw i with
       | Ok _ => []
       | Throw e => [{| index := i; record := raw; error := message_of e |}]
       end) inputs.

(** [r] is the canonical record of the input [raw] at index [i], built at
    some time. *)
Definition canonical_of (input : nat * JsValue) (r : JsValue) : Prop :=
  exists w, fst (TransformService.transformRecord (snd input) (fst input) w)
            = Ok r.

(** The gate is set exactly while one call is suspended at its [await]. *)
Definition gate_consistent (c : SchedulerService.Configuration) : Prop :=
  (SchedulerService.running (SchedulerService.service c) = true /\
   exists p, SchedulerService.suspended c = [p]) \/
  (SchedulerService.running (SchedulerService.service c) = false /\
   SchedulerService.suspended c = []).

(** [s.split('-')] *)
Fixpoint tokens (s : jsstring) : list jsstring :=
  match s with
  | [] => [[]]
  | c :: t =>
      if is_hyphen c then [] :: tokens t
      else match tokens t with
           | w :: ws => (c :: w) :: ws
           | [] => [[c]]
           end
  end.

Definition nonempty (s : jsstring) : bool := negb (is_empty s).

(** The maximal hyphen-free pieces of [s]. *)
Definition words (s : jsstring) : list jsstring := filter nonempty (tokens s).

Definition starts_with_hyphen (s : jsstring) : bool := head_is is_hyphen s.

Fixpoint ends_with_hyphen (s : jsstring) : bool :=
  match s with
  | [] => false
  | [c] => is_hyphen c
  | _ :: t => ends_with_hyphen t
  end.

Fixpoint has_double_hyphen (s : jsstring) : bool :=
  match s with
  | [] => false
  | c :: t => is_hyphen c && head_is is_hyphen t || has_double_hyphen t
  end.

Definition not_slug_char (c : N) : bool := negb (is_slug_char c).

(** Replacing every run of characters other than [a-z0-9] by one hyphen,
    as the specification words it. *)
Fixpoint replace_runs (s : jsstring) : jsstring :=
  match s with
  | [] => []
  | c :: t =>
      if is_slug_char c then c :: replace_runs t
      else if head_is not_slug_char t then replace_runs t
      else hyphen :: replace_runs t
  end.

(** [slugify] of the specification: lowercase, replace every run of
    non-alphanumeric characters by a single hyphen, strip the hyphens at
    the two ends. *)
Definition slugify (s : jsstring) : jsstring :=
  strip_edge_hyphens (replace_runs (toLowerCase s)).

(** The slug of the state-province, when the record has one. *)
Definition state_slug (v : JsValue) : list jsstring :=
  match v with
  | JStr s => if is_empty s then [] else [slugify s]
  | _ => []
  end.

(** The position of the first of the [remaining] next responses on which
    an attempt does not fail. *)
Fixpoint first_success (responses : nat -> AxiosOutcome) (remaining : nat)
  : option nat :=
  match remaining with
  | O => None
  | S remaining' =>
      match attempt_failure (responses 0) with
      | None => Some 0
      | Some _ =>
          match first_success (fun k => responses (S k)) remaining' with
          | Some k => Some (S k)
          | None => None
          end
      end
  end.

(** Objects and arrays: the values that [typeof] calls objects, [null]
    apart. *)
Definition is_object (v : JsValue) : bool :=
  match v with
  | JObj _ | JArr _ => true
  | _ => false
  end.


(** A field of a record after lowercasing and replacement of the
    characters outside [a-z0-9]; nothing when it is not a string. *)
Definition lowered (v : JsValue) : jsstring :=
  match v with
  | JStr s => replace_non_alnum (toLowerCase s)
  | _ => []
  end.

(** The three parts [generateId] puts together: country, state-province
    (nothing when it is falsy) and name. *)
Definition id_parts (record : JsValue) : list jsstring :=
  [ lowered (get record (str "country"));
    (if truthy (get record (str "state-province"))
     then lowered (get record (str "state-province")) else []);
    lowered (get record (str "name")) ].

(** Whether the last code unit of [s] satisfies [p]. *)
Fixpoint last_is (p : N -> bool) (s : jsstring) : bool :=
  match s with
  | [] => false
  | [c] => p c
  | _ :: t => last_is p t
  end.

(** Every whitespace character of [s] is a space that is followed by a
    character that is not whitespace. *)
Fixpoint single_spaced (s : jsstring) : bool :=
  match s with
  | [] => true
  | c :: t =>
      (if is_whitespace c
       then (c =? space)%N && negb (is_empty t)
            && negb (head_is is_whitespace t)
       else true)
      && single_spaced t
  end.

(** [url] starts with [http://] or [https://]. *)
Definition has_scheme (url : jsstring) : bool :=
  startsWith (str "http://") url || startsWith (str "https://") url.

(** What [transformWebPages] makes of one entry. *)
Definition normalize_url (url : jsstring) : jsstring :=
  let trimmed := trim url in
  if negb (startsWith (str "http://") trimmed)
     && negb (startsWith (str "https://") trimmed)
  then str "https://" ++ trimmed
  else trimmed.






(** The text of a cell of the table before it is quoted. *)
Definition rendered (record : JsValue) (header : string) : jsstring :=
  match get record (str header) with
  | JArr items => array_join [semicolon] items
  | JUndefined | JNull => []
  | value => to_string value
  end.

(** The quoting of [generateCsv]. *)
Definition csv_escape (value : jsstring) : jsstring :=
  if includes comma value || includes dquote value
  then [dquote] ++ double_quotes value ++ [dquote]
  else value.




(** No call of the [fs] module fails, now or later. *)
Definition quiet_disk (w : World) : Prop :=
  forall k, answer (faults (disk w)) k = None.

(** The name of the backup that a [saveData] starting in [w] makes. *)
Definition backup_name (w : World) : jsstring :=
  str "universities-" ++ dash_colons_dots (toISOString (next_time w))
  ++ str ".json".

(** The result with which an awaited run settles is one that [run]
    produces. *)
Definition produced_by_run (e : SchedulerService.Event) : Prop :=
  match e with
  | SchedulerService.RunSettles _ result _ _ =>
      exists cfg w, result = fst (ETLService.run cfg w)
  | _ => True
  end.

(** An entry that reports a failed run. *)
Definition reports_failure (entry : SchedulerService.HistoryEntry) : Prop :=
  SchedulerService.success entry = false /\
  SchedulerService.records entry = None /\
  SchedulerService.error entry <> None.

(** The turns that are the SIGTERM handler, and those that are a post to
    [/scheduler/start]. *)
Definition is_sigterm (h : Server.Happening) : bool :=
  match h with Server.Sigterm => true | _ => false end.

Definition is_scheduler_start (h : Server.Happening) : bool :=
  match h with Server.PostSchedulerStart => true | _ => false end.

(** An entry that [runManual] made. *)
Definition is_manual (entry : SchedulerService.HistoryEntry) : Prop :=
  SchedulerService.type entry = Some (str "manual").

(** What holds of the scheduler of the router as long as nobody posts
    to [/scheduler/start]. *)
Definition manual_only (c : SchedulerService.Configuration) : Prop :=
  SchedulerService.job (SchedulerService.service c) = false /\
  Forall (fun q => SchedulerService.trigger q = SchedulerService.Manual)
    (SchedulerService.suspended c) /\
  Forall is_manual (SchedulerService.history (SchedulerService.service c)).

End Vocabulary.

(** ** Concrete inputs *)

Definition no_faults : Oracle (option jsstring) :=
  {| answer := fun _ => None; asked := 0 |}.

(** A world with an empty disk, a clock that ticks once per reading, and
    [Math.random()] stuck at one half. *)
Definition world_answering (responses : nat -> @AxiosOutcome sample_host)
  : @World sample_host :=
  {| clock := {| answer := fun k => Z.of_nat k; asked := 0 |};
     network := {| answer := responses; asked := 0 |};
     entropy := {| answer := fun _ => (1 # 2)%Q; asked := 0 |};
     slept := [];
     disk := {| jsonFile := None; csvFile := None; backupFiles := [];
                faults := no_faults |} |}.

Definition test_university : @JsValue sample_host :=
  JObj [ (str "name", JStr (str "Test University"));
         (str "country", JStr (str "United States")) ].

Definition stanford_raw : @JsValue sample_host :=
  JObj [ (str "name", JStr (str "Stanford University"));
         (str "country", JStr (str "United States"));
         (str "alpha_two_code", JStr (str "US"));
         (str "state-province", JStr (str "California"));
         (str "domains", JArr [JStr (str "stanford.edu")]);
         (str "web_pages", JArr [JStr (str "https://www.stanford.edu")]) ].

Definition stanford_canonical : @JsValue sample_host :=
  JObj [ (str "id", JStr (str "united-states-california-stanford-university"));
         (str "name", JStr (str "Stanford University"));
         (str "country", JStr (str "United States"));
         (str "alphaCode", JStr (str "US"));
         (str "stateProvince", JStr (str "California"));
         (str "domains", JArr [JStr (str "stanford.edu")]);
         (str "webPages", JArr [JStr (str "https://www.stanford.edu")]);
         (str "lastUpdated", JStr (str "T0")) ].

(** A record whose name has no letter or digit. *)
Definition punctuation_name : @JsValue sample_host :=
  JObj [ (str "name", JStr (str "!")); (str "country", JStr (str "US")) ].

(** A record whose list fields are a string and a number. *)
Definition scalar_lists : @JsValue sample_host :=
  JObj [ (str "name", JStr (str "Test University"));
         (str "country", JStr (str "United States"));
         (str "domains", JStr (str "test.edu"));
         (str "web_pages", @JNum sample_host 7%Z) ].

(** A network whose first answer is a timeout and whose later answers
    are a list of one record. *)
Definition flaky_network (k : nat) : @AxiosOutcome sample_host :=
  match k with
  | 0 => Rejected (WithRequest (str "timeout"))
  | S _ => Resolved (JArr [stanford_raw])
  end.

(** The batch that [transformData] makes of [stanford_raw] when the
    clock reads 0 and then 1. *)
Definition stanford_batch : @TransformResult sample_host :=
  {| data := [stanford_canonical];
     metadata := {| totalRecords := 1;
                    successfulTransformations := 1;
                    failedTransformations := 0;
                    transformationDate := str "T1";
                    errors := [] |} |}.

Definition empty_batch : @TransformResult sample_host :=
  {| data := [];
     metadata := {| totalRecords := 0;
                    successfulTransformations := 0;
                    failedTransformations := 0;
                    transformationDate := str "T0";
                    errors := [] |} |}.

(** A world whose disk holds [stored] as its JSON file and [table] as its
    CSV file, and whose [n]-th call of the [fs] module, if any, fails. *)
Definition world_storing (stored : option (@TransformResult sample_host))
    (table : option jsstring) (failing : option nat) : @World sample_host :=
  {| clock := {| answer := fun k => Z.of_nat k; asked := 0 |};
     network := {| answer := fun _ => Resolved JNull; asked := 0 |};
     entropy := {| answer := fun _ => (1 # 2)%Q; asked := 0 |};
     slept := [];
     disk := {| jsonFile := stored; csvFile := table; backupFiles := [];
                faults :=
                  {| answer := fun k =>
                                 match failing with
                                 | Some n => if Nat.eqb k n
                                             then Some (str "EIO") else None
                                 | None => None
                                 end;
                     asked := 0 |} |} |}.

(** A record that differs from [stanford_raw] in case, spacing and
    punctuation only. *)
Definition stanford_shouted : @JsValue sample_host :=
  JObj [ (str "name", JStr (str "STANFORD -- University!"));
         (str "country", JStr (str "united   states"));
         (str "state-province", JStr (str "(California)")) ].

(** The table text of a batch, empty if it has none. *)
Definition table_of (batch : @TransformResult sample_host) : jsstring :=
  match LoadService.csv_text (data batch) with
  | Ok text => text
  | Throw _ => []
  end.

(** * Properties *)

(** ** The structural validator of the extractor *)

Section ValidatorProperties.
Context {H : Host}.

Lemma in_operator_true (field : string) (sample : JsValue) :
  ExtractService.in_operator field sample = Ok true <->
  exists props v, sample = JObj props /\ lookup (str field) props = Some v.
Proof.
  split.
  - destruct sample; simpl; try discriminate.
    intros Hk. exists props.
    destruct (lookup (str field) props) as [v|]; [|discriminate].
    exists v. split; reflexivity.
  - intros (props & v & -> & Hl). simpl. rewrite Hl. reflexivity.
Qed.

Lemma has_fields_true (fields : list string) (sample : JsValue) :
  ExtractService.has_fields fields sample = Ok true <->
  Forall (fun field => ExtractService.in_operator field sample = Ok true) fields.
Proof.
  induction fields as [|f fields IH]; simpl.
  - split; [constructor | reflexivity].
  - destruct (ExtractService.in_operator f sample) as [[|]|e] eqn:Hin.
    + rewrite IH. split.
      * intros Hall. constructor; assumption.
      * intros Hall. inversion Hall; assumption.
    + split; [discriminate|]. intros Hall. inversion Hall; congruence.
    + split; [discriminate|]. intros Hall. inversion Hall; congruence.
Qed.

(** C3, as amended: the validator answers true exactly for an empty array
    and for an array whose first element is an object that has a [name]
    key and a [country] key; the values under the keys are not looked
    at. *)
Theorem validateExtractedData_true_iff (d : JsValue) :
  ExtractService.validateExtractedData d = Ok true <->
  exists items,
    d = JArr items /\
    (items = [] \/
     exists props rest name country,
       items = JObj props :: rest /\
       lookup (str "name") props = Some name /\
       lookup (str "country") props = Some country).
Proof.
  unfold ExtractService.validateExtractedData. split.
  - destruct d as [| | | | |items|]; try discriminate.
    destruct items as [|sample rest].
    + intros _. exists []. split; [reflexivity | left; reflexivity].
    + rewrite has_fields_true. intros Hall.
      inversion Hall as [|? ? Hname Hall']; subst.
      inversion Hall' as [|? ? Hcountry _]; subst.
      apply in_operator_true in Hname as (props & name & -> & Hn).
      apply in_operator_true in Hcountry as (props' & country & Heq & Hc).
      injection Heq as <-.
      exists (JObj props :: rest). split; [reflexivity|]. right.
      exists props, rest, name, country. repeat split; assumption.
  - intros (items & -> & [-> | (props & rest & name & country & -> & Hn & Hc)]).
    + reflexivity.
    + apply has_fields_true.
      repeat constructor; apply in_operator_true; eauto.
Qed.

End ValidatorProperties.

(** ** Retry delays *)

Section RetryProperties.
Context {H : Host}.

Lemma retry_delay_between (cfg : ExtractService.Config) (k : Z) (rnd : Q) :
  (0 <= rnd)%Q -> (rnd < 1)%Q ->
  let e := (ExtractService.retryDelay cfg * 2 ^ (k - 1))%Q in
  let cap := ExtractService.maxRetryDelay cfg in
  (Qmin e cap <= ExtractService.retry_delay cfg k rnd)%Q /\
  (ExtractService.retry_delay cfg k rnd <= Qmin (e + 1000) cap)%Q /\
  (ExtractService.retry_delay cfg k rnd <= cap)%Q.
Proof.
  intros Hlo Hhi e cap. unfold ExtractService.retry_delay. fold e. fold cap.
  destruct (Q.min_spec (e + rnd * 1000) cap) as [[Hlt Heq]|[Hle Heq]];
  destruct (Q.min_spec e cap) as [[Hlt1 Heq1]|[Hle1 Heq1]];
  destruct (Q.min_spec (e + 1000) cap) as [[Hlt2 Heq2]|[Hle2 Heq2]];
  rewrite Heq, Heq1, Heq2; repeat split; lra.
Qed.

(** C8, as amended: the delay computed for attempt [k] is
    [min(base * 2^(k-1) + jitter, max)] with [0 <= jitter < 1000]; it lies
    between [min(base * 2^(k-1), max)] and [min(base * 2^(k-1) + 1000, max)],
    never exceeds [max], and lies in [[base * 2^(k-1), base * 2^(k-1) + 1000]]
    whenever that interval ends at or below [max]. *)
Theorem calculateRetryDelay_bounds (cfg : ExtractService.Config) (k : Z)
    (w : World) :
  (0 <= next_random w)%Q -> (next_random w < 1)%Q ->
  exists d w',
    ExtractService.calculateRetryDelay cfg k w = (Ok d, w') /\
    let e := (ExtractService.retryDelay cfg * 2 ^ (k - 1))%Q in
    let cap := ExtractService.maxRetryDelay cfg in
    (Qmin e cap <= d)%Q /\ (d <= Qmin (e + 1000) cap)%Q /\ (d <= cap)%Q /\
    ((e + 1000 <= cap)%Q -> (e <= d)%Q /\ (d <= e + 1000)%Q).
Proof.
  intros Hlo Hhi.
  exists (ExtractService.retry_delay cfg k (next_random w)).
  eexists. split; [reflexivity|].
  destruct (retry_delay_between cfg k (next_random w) Hlo Hhi) as (H1 & H2 & H3).
  cbv zeta in *.
  set (d := ExtractService.retry_delay cfg k (next_random w)) in *.
  set (e := (ExtractService.retryDelay cfg * 2 ^ (k - 1))%Q) in *.
  set (cap := ExtractService.maxRetryDelay cfg) in *.
  repeat split; try assumption.
  - destruct (Q.min_spec e cap) as [[_ Heq]|[Hle Heq]];
      rewrite Heq in H1; lra.
  - destruct (Q.min_spec (e + 1000) cap) as [[_ Heq]|[Hle Heq]];
      rewrite Heq in H2; lra.
Qed.

End RetryProperties.

(** ** The scheduler's gate and history *)

Section SchedulerProperties.
Context {H : Host}.
Import SchedulerService.

Lemma step_preserves_gate (c : Configuration) (e : Event) :
  gate_consistent c -> gate_consistent (fst (step c e)).
Proof.
  intros [[Hrun [p Hp]] | [Hrun Hp]]; destruct c as [[j r h] susp];
    simpl in *; subst; destruct e as [| |t|t|n result finished stamp]; simpl.
  - left. unfold start. destruct j; simpl; eauto.
  - left. unfold stop. destruct j; simpl; eauto.
  - left. simpl. eauto.
  - left. simpl. eauto.
  - destruct n as [|n]; simpl.
    + right. destruct (trigger p); [|destruct result]; simpl; auto.
    + destruct n; simpl; left; simpl; eauto.
  - right. unfold start. destruct j; simpl; auto.
  - right. unfold stop. destruct j; simpl; auto.
  - left. simpl. eauto.
  - left. simpl. eauto.
  - destruct n; simpl; right; simpl; auto.
Qed.

Lemma reachable_gate_consistent (es : list Event) (c : Configuration) :
  gate_consistent c -> gate_consistent (run_events c es).
Proof.
  revert c. induction es as [|e es IH]; intros c Hc; simpl.
  - exact Hc.
  - apply IH, step_preserves_gate, Hc.
Qed.

Lemma boot_gate_consistent : gate_consistent boot.
Proof. right. split; reflexivity. Qed.

Lemma record_outcome_history (entry : HistoryEntry) (s : Scheduler) :
  history (record_outcome entry s) = entry :: firstn 9 (history s).
Proof. reflexivity. Qed.

Lemma history_capped (es : list Event) (c : Configuration) :
  List.length (history (service c)) <= 10 ->
  List.length (history (service (run_events c es))) <= 10.
Proof.
  revert c. induction es as [|e es IH]; intros c Hc; simpl; [exact Hc|].
  apply IH. destruct c as [[j r h] susp]. simpl in Hc.
  assert (Hcap : forall entry, List.length (entry :: firstn 9 h) <= 10).
  { intros entry. change (S (List.length (firstn 9 h)) <= 10).
    rewrite length_firstn. lia. }
  destruct e as [| |t|t|n result finished stamp]; cbn -[firstn].
  - unfold start. destruct j; cbn; exact Hc.
  - unfold stop. destruct j; cbn; exact Hc.
  - unfold runETL_enter. destruct r; cbn; exact Hc.
  - unfold runManual_enter. destruct r; cbn; exact Hc.
  - destruct (nth_error susp n) as [p|]; cbn -[firstn]; [|exact Hc].
    destruct (trigger p); [|destruct result]; cbn -[firstn]; apply Hcap.
Qed.

(** C5: in every configuration the service can reach in which a run is in
    flight, a manual request is rejected at once with the error "ETL
    already running" and changes nothing, history included; and when the
    run in flight settles, with a result or an error, the gate is cleared,
    no call remains suspended, and exactly one entry, carrying the
    outcome, is put in front of the history, of which the ten most recent
    entries are kept. *)
Theorem gate_rejects_and_is_released (es : list Event) :
  let c := run_events boot es in
  running (service c) = true ->
  (forall t,
     step c (ManualRequest t) =
       (c, Rejected (Error (str "ETL already running")))) /\
  (forall n p result finished stamp,
     nth_error (suspended c) n = Some p ->
     let c' := fst (step c (RunSettles n result finished stamp)) in
     running (service c') = false /\
     suspended c' = [] /\
     List.length (history (service c')) <= 10 /\
     exists entry,
       history (service c') = entry :: firstn 9 (history (service c)) /\
       success entry = is_ok result /\
       duration entry = (finished - started_at p)%Z).
Proof.
  intros c Hrun.
  pose proof (reachable_gate_consistent es boot boot_gate_consistent) as Hgate.
  fold c in Hgate.
  destruct Hgate as [[_ [q Hq]] | [Hoff _]]; [|congruence].
  split.
  - intros t. simpl. unfold runManual_enter. rewrite Hrun.
    destruct c; reflexivity.
  - intros n p result finished stamp Hp c'.
    rewrite Hq in Hp. destruct n as [|n]; simpl in Hp;
      [injection Hp as -> | destruct n; discriminate].
    assert (Hc' : running (service c') = false /\ suspended c' = [] /\
              exists entry,
                history (service c') = entry :: firstn 9 (history (service c)) /\
                success entry = is_ok result /\
                duration entry = (finished - started_at p)%Z).
    { subst c'. cbn -[firstn]. rewrite Hq. cbn -[firstn].
      destruct (trigger p); [|destruct result]; cbn -[firstn];
        repeat split; eexists; repeat split;
        destruct result; reflexivity. }
    destruct Hc' as (Hoff & Hnone & entry & Hhist & Hsucc & Hdur).
    repeat split; try assumption.
    + rewrite Hhist.
      change (S (List.length (firstn 9 (history (service c)))) <= 10).
      rewrite length_firstn. lia.
    + exists entry. repeat split; assumption.
Qed.

End SchedulerProperties.

(** ** The transformer *)

Section TransformProperties.
Context {H : Host}.
Import TransformService.

Lemma str_eqb_eq (a b : jsstring) : str_eqb a b = true <-> a = b.
Proof.
  revert b. induction a as [|x a IH]; intros [|y b]; simpl;
    try (split; [discriminate | discriminate]); [tauto|].
  rewrite andb_true_iff, N.eqb_eq, IH. split.
  - intros [-> ->]. reflexivity.
  - intros Heq. injection Heq as -> ->. split; reflexivity.
Qed.

Lemma str_eqb_refl (a : jsstring) : str_eqb a a = true.
Proof. apply str_eqb_eq. reflexivity. Qed.

Lemma str_eqb_neq (a b : jsstring) : a <> b -> str_eqb a b = false.
Proof.
  intros Hne. destruct (str_eqb a b) eqn:E; [|reflexivity].
  apply str_eqb_eq in E. contradiction.
Qed.

(** The final shape check does not look at [lastUpdated]. *)
Lemma validate_ignores_lastUpdated (record : JsValue) (id t1 t2 : jsstring) :
  validateTransformedRecord (build_record record id t1) =
  validateTransformedRecord (build_record record id t2).
Proof. reflexivity. Qed.

(** [transformRecord] is its verdict, with the time stamp of the clock. *)
Lemma transformRecord_verdict (record : JsValue) (i : nat) (w : World) :
  exists w',
    transformRecord record i w
    = (match verdict record i with
       | Ok id => Ok (build_record record id (toISOString (next_time w)))
       | Throw e => Throw e
       end, w').
Proof.
  unfold transformRecord, verdict, bind at 1, lift.
  destruct (prepare record i) as [id|e]; cbn [bind_outcome];
    [|eexists; reflexivity].
  unfold bind, now, ask, next_time.
  rewrite (validate_ignores_lastUpdated record id []
             (toISOString (answer (clock w) (asked (clock w))))).
  destruct (validateTransformedRecord _); eexists; reflexivity.
Qed.

Lemma transformRecord_fst (record : JsValue) (i : nat) (w : World) :
  fst (transformRecord record i w)
  = match verdict record i with
    | Ok id => Ok (build_record record id (toISOString (next_time w)))
    | Throw e => Throw e
    end.
Proof.
  destruct (transformRecord_verdict record i w) as [w' ->]. reflexivity.
Qed.

(** What a successful [transformRecord] returns is the object literal. *)
Lemma transformRecord_ok_inv (record : JsValue) (i : nat) (w w' : World)
    (r : JsValue) :
  transformRecord record i w = (Ok r, w') ->
  exists id,
    verdict record i = Ok id /\
    r = build_record record id (toISOString (next_time w)).
Proof.
  intros Hr. pose proof (transformRecord_fst record i w) as Hfst.
  rewrite Hr in Hfst. cbn [fst] in Hfst.
  destruct (verdict record i) as [id|e]; [|discriminate].
  injection Hfst as ->. exists id. split; reflexivity.
Qed.

(** The index only enters the message of the type check. *)
Lemma verdict_index (record : JsValue) (i j : nat) (id : jsstring) :
  verdict record i = Ok id -> verdict record j = Ok id.
Proof.
  unfold verdict, prepare.
  destruct (negb (truthy record) || negb (typeof_object record));
    [discriminate | exact (fun Hv => Hv)].
Qed.

Lemma build_record_fields (record : JsValue) (id t1 t2 field : jsstring) :
  field <> str "lastUpdated" ->
  get (build_record record id t1) field = get (build_record record id t2) field.
Proof.
  intros Hne. unfold build_record, get, lookup.
  repeat match goal with
         | |- context [str_eqb ?k field] =>
             destruct (str_eqb k field) eqn:?; [reflexivity|]
         end.
  destruct (str_eqb (str "lastUpdated") field) eqn:E.
  - apply str_eqb_eq in E. congruence.
  - reflexivity.
Qed.

(** C9: a raw record that the transform accepts is accepted again, at any
    index and any time, and the two canonical records have the same [id]
    and the same value in every field other than [lastUpdated], which is
    the time of each call. *)
Theorem transformRecord_repeatable (record : JsValue) (i j : nat)
    (w1 w1' w2 : World) (r1 : JsValue) :
  transformRecord record i w1 = (Ok r1, w1') ->
  exists r2 w2',
    transformRecord record j w2 = (Ok r2, w2') /\
    get r1 (str "id") = get r2 (str "id") /\
    (forall field, field <> str "lastUpdated" -> get r1 field = get r2 field) /\
    get r1 (str "lastUpdated") = JStr (toISOString (next_time w1)) /\
    get r2 (str "lastUpdated") = JStr (toISOString (next_time w2)).
Proof.
  intros Hr1.
  destruct (transformRecord_ok_inv _ _ _ _ _ Hr1) as (id & Hv & ->).
  destruct (transformRecord_verdict record j w2) as [w2' Hr2].
  rewrite (verdict_index record i j id Hv) in Hr2.
  exists (build_record record id (toISOString (next_time w2))), w2'.
  split; [exact Hr2|]. split; [reflexivity|]. split; [|split; reflexivity].
  intros field Hne. apply build_record_fields, Hne.
Qed.

(** *** List fields *)

Lemma transformDomains_not_array (v : JsValue) :
  isArray v = false -> transformDomains v = [].
Proof. destruct v; simpl; intros E; try reflexivity; discriminate. Qed.

Lemma transformWebPages_not_array (v : JsValue) :
  isArray v = false -> transformWebPages v = [].
Proof. destruct v; simpl; intros E; try reflexivity; discriminate. Qed.

(** A value that fails the first test of [transformRecord] has no [name]. *)
Lemma rejected_type_has_no_name (record : JsValue) :
  negb (truthy record) || negb (typeof_object record) = true ->
  exists e, check_required requiredFields record = Throw e.
Proof.
  destruct record; simpl; intros E; try discriminate; eexists; reflexivity.
Qed.

(** Whether a record is accepted is decided by its [name], [country] and
    [state-province] alone. *)
Lemma acceptance_congruence (record record' : JsValue) (i : nat) :
  get record' (str "name") = get record (str "name") ->
  get record' (str "country") = get record (str "country") ->
  get record' (str "state-province") = get record (str "state-province") ->
  is_ok (verdict record' i) = is_ok (verdict record i).
Proof.
  intros Hn Hc Hs.
  assert (Hcheck : check_required requiredFields record'
                   = check_required requiredFields record).
  { unfold check_required, requiredFields. rewrite Hn, Hc. reflexivity. }
  assert (Hid : generateId record' = generateId record).
  { unfold generateId. rewrite Hn, Hc, Hs. reflexivity. }
  assert (Hval : forall id,
             validateTransformedRecord (build_record record' id [])
             = validateTransformedRecord (build_record record id [])).
  { intros id. unfold build_record. rewrite Hn, Hc. reflexivity. }
  unfold verdict, prepare. rewrite Hcheck, Hid.
  destruct (negb (truthy record) || negb (typeof_object record)) eqn:G;
    destruct (negb (truthy record') || negb (typeof_object record')) eqn:G'.
  - reflexivity.
  - apply rejected_type_has_no_name in G as [e ->]. reflexivity.
  - rewrite <- Hcheck.
    apply rejected_type_has_no_name in G' as [e ->]. reflexivity.
  - destruct (check_required requiredFields record); [|reflexivity].
    cbn [bind_outcome]. destruct (generateId record) as [id|]; [|reflexivity].
    cbn [bind_outcome]. rewrite Hval.
    destruct (validateTransformedRecord (build_record record id []));
      reflexivity.
Qed.

Lemma transformRecord_is_ok (record : JsValue) (i : nat) (w : World) :
  is_ok (fst (transformRecord record i w)) = is_ok (verdict record i).
Proof.
  rewrite transformRecord_fst. destruct (verdict record i); reflexivity.
Qed.

Lemma key_neq (a b : string) : str_eqb (str a) (str b) = false -> str a <> str b.
Proof.
  intros E Heq. rewrite Heq, str_eqb_refl in E. discriminate.
Qed.

(** C10: when the [domains] field (respectively [web_pages]) of a raw
    record is missing or is not an array, an accepted record has the empty
    array as its [domains] (respectively [webPages]); and whether a record
    is accepted does not depend on these two fields at all, so a malformed
    one never causes a rejection. *)
Theorem malformed_list_fields (record : JsValue) (i : nat) (w : World) :
  (isArray (get record (str "domains")) = false ->
   forall r w', transformRecord record i w = (Ok r, w') ->
                get r (str "domains") = JArr []) /\
  (isArray (get record (str "web_pages")) = false ->
   forall r w', transformRecord record i w = (Ok r, w') ->
                get r (str "webPages") = JArr []) /\
  (forall record',
     (forall key, key <> str "domains" -> key <> str "web_pages" ->
                  get record' key = get record key) ->
     is_ok (fst (transformRecord record' i w))
     = is_ok (fst (transformRecord record i w))).
Proof.
  split; [|split].
  - intros Hd r w' Hr.
    apply transformRecord_ok_inv in Hr as (id & _ & ->).
    change (JArr (map JStr (transformDomains (get record (str "domains"))))
            = JArr []).
    rewrite (transformDomains_not_array _ Hd). reflexivity.
  - intros Hw r w' Hr.
    apply transformRecord_ok_inv in Hr as (id & _ & ->).
    change (JArr (map JStr (transformWebPages (get record (str "web_pages"))))
            = JArr []).
    rewrite (transformWebPages_not_array _ Hw). reflexivity.
  - intros record' Hagree. rewrite !transformRecord_is_ok.
    apply acceptance_congruence; apply Hagree; apply key_neq; reflexivity.
Qed.

(** *** Batches *)

Lemma accepted_rejected_length (inputs : list (nat * JsValue)) :
  List.length (accepted inputs) + List.length (rejected inputs)
  = List.length inputs.
Proof.
  induction inputs as [|[i raw] inputs IH]; simpl; [reflexivity|].
  rewrite length_app.
  destruct (verdict raw i); simpl; lia.
Qed.

Lemma indexed_length (items : list JsValue) :
  List.length (indexed items) = List.length items.
Proof.
  unfold indexed. rewrite length_combine, length_seq. apply Nat.min_id.
Qed.

Lemma transform_loop_spec (rest : list JsValue) :
  forall (i : nat) (acc : list JsValue) (errs : list TransformError)
         (w : World),
    let inputs := combine (seq i (List.length rest)) rest in
    exists out w',
      transform_loop rest i acc errs w
      = (Ok (acc ++ out, errs ++ rejected inputs), w') /\
      Forall2 canonical_of (accepted inputs) out.
Proof.
  induction rest as [|raw rest IH]; intros i acc errs w; cbv zeta.
  - exists [], w. simpl. rewrite !app_nil_r. split; [reflexivity | constructor].
  - cbn [transform_loop]. unfold bind at 1, observe.
    destruct (transformRecord_verdict raw i w) as [w1 Hstep].
    pose proof (transformRecord_fst raw i w) as Hfst.
    rewrite Hstep.
    cbn [List.length seq combine accepted rejected flat_map filter].
    destruct (verdict raw i) as [id|e] eqn:Hv; cbn [is_ok].
    + destruct (IH (S i)
                  (acc ++ [build_record raw id (toISOString (next_time w))])
                  errs w1) as (out & w' & Hloop & Hall).
      exists (build_record raw id (toISOString (next_time w)) :: out), w'.
      cbv zeta in Hloop. cbn [truthy build_record]. rewrite Hloop.
      rewrite <- app_assoc. split; [reflexivity|].
      constructor; [|exact Hall].
      exists w. exact Hfst.
    + destruct (IH (S i) acc
                  (errs ++ [{| index := i; record := raw;
                               error := message_of e |}]) w1)
        as (out & w' & Hloop & Hall).
      exists out, w'. cbv zeta in Hloop. rewrite Hloop.
      rewrite <- app_assoc. split; [reflexivity | exact Hall].
Qed.

(** C4: for every array of raw records [transformData] returns a batch;
    its [totalRecords] is the length of the input, the successes and the
    failures add up to it, and [data] has as many elements as there are
    successes.  [data] holds, in input order, the canonical record of
    every accepted input, and [errors], in input order, an entry for
    every rejected input with its index, the raw record and the message
    of the error: a rejection does not stop the records after it. *)
Theorem transformData_accounts (items : list JsValue) (w : World) :
  exists batch w',
    transformData (JArr items) w = (Ok batch, w') /\
    totalRecords (metadata batch) = List.length items /\
    successfulTransformations (metadata batch)
      + failedTransformations (metadata batch)
      = totalRecords (metadata batch) /\
    List.length (data batch) = successfulTransformations (metadata batch) /\
    List.length (errors (metadata batch))
      = failedTransformations (metadata batch) /\
    Forall2 canonical_of (accepted (indexed items)) (data batch) /\
    errors (metadata batch) = rejected (indexed items).
Proof.
  destruct (transform_loop_spec items 0 [] [] w) as (out & w1 & Hloop & Hall).
  cbv zeta in Hloop. cbn [app] in Hloop. fold (indexed items) in Hloop, Hall.
  unfold transformData, bind at 1. rewrite Hloop.
  unfold bind, now, ret, ask. cbn beta iota.
  eexists. eexists. split; [reflexivity|]. cbn [data metadata totalRecords
    successfulTransformations failedTransformations errors].
  pose proof (accepted_rejected_length (indexed items)) as Hlen.
  rewrite indexed_length, (Forall2_length Hall) in Hlen.
  repeat split; assumption.
Qed.

End TransformProperties.

(** ** Extraction with retries *)

Section ExtractProperties.
Context {H : Host}.
Import ExtractService.

Lemma attempt_once_spec (w : World) :
  exists w',
    answer (network w') = answer (network w) /\
    asked (network w') = S (asked (network w)) /\
    match attempt_failure (response_at w 0) with
    | Some cause => attempt_once w = (Throw (Error cause), w')
    | None => exists d, attempt_once w = (Ok d, w')
    end.
Proof.
  unfold attempt_once, makeApiRequest, bind, axios, ask, response_at.
  rewrite Nat.add_0_r.
  exists {| clock := clock w;
            network := {| answer := answer (network w);
                          asked := S (asked (network w)) |};
            entropy := entropy w; slept := slept w; disk := disk w |}.
  split; [reflexivity|]. split; [reflexivity|].
  destruct (answer (network w) (asked (network w))) as [d|[status text|m|m]];
    simpl; try reflexivity.
  destruct d; simpl; rewrite ?orb_true_r; try reflexivity;
    eexists; reflexivity.
Qed.

(** The wait between two attempts leaves the network alone. *)
Lemma wait_keeps_network (cfg : Config) (attempt : Z) (w : World) :
  exists w',
    (if (attempt <? retryAttempts cfg)%Z
     then bind (calculateRetryDelay cfg attempt) (fun delay => sleep delay)
     else ret tt) w = (Ok tt, w') /\
    network w' = network w.
Proof.
  destruct (attempt <? retryAttempts cfg)%Z.
  - unfold bind, calculateRetryDelay, bind, random, ret, sleep, ask. simpl.
    eexists. split; reflexivity.
  - exists w. split; reflexivity.
Qed.

Lemma response_at_shift (w w' : World) (k : nat) :
  answer (network w') = answer (network w) ->
  asked (network w') = S (asked (network w)) ->
  response_at w' k = response_at w (S k).
Proof.
  intros Ha Hn. unfold response_at. rewrite Ha, Hn. f_equal. lia.
Qed.

(** One iteration that fails, then the rest of the loop. *)
Lemma extract_loop_step (cfg : Config) (remaining : nat) (attempt : Z)
    (lastError : option JsError) (w : World) (cause : jsstring) :
  attempt_failure (response_at w 0) = Some cause ->
  exists w1,
    extract_loop cfg (S remaining) attempt lastError w
    = extract_loop cfg remaining (attempt + 1)%Z (Some (Error cause)) w1 /\
    answer (network w1) = answer (network w) /\
    asked (network w1) = S (asked (network w)).
Proof.
  intros Hfail.
  destruct (attempt_once_spec w) as (w0 & Ha & Hn & Hstep).
  rewrite Hfail in Hstep.
  destruct (wait_keeps_network cfg attempt w0) as (w1 & Hwait & Hnet).
  exists w1. split; [|rewrite Hnet; auto].
  cbn [extract_loop]. unfold try_catch. rewrite Hstep.
  unfold bind at 1. rewrite Hwait. reflexivity.
Qed.

Lemma extract_loop_all_fail (cfg : Config) (remaining : nat) :
  forall (attempt : Z) (lastError : JsError) (w : World),
    (forall k, k < remaining -> attempt_failure (response_at w k) <> None) ->
    exists cause w',
      extract_loop cfg remaining attempt (Some lastError) w
      = (Throw (Error (failure_text cfg cause)), w') /\
      requests_made w' = requests_made w + remaining /\
      match remaining with
      | O => cause = message_of lastError
      | S n => attempt_failure (response_at w n) = Some cause
      end.
Proof.
  induction remaining as [|remaining IH]; intros attempt lastError w Hall.
  - exists (message_of lastError), w. simpl.
    unfold requests_made. rewrite Nat.add_0_r. auto.
  - destruct (attempt_failure (response_at w 0)) as [cause0|] eqn:H0;
      [|exfalso; apply (Hall 0); [lia | exact H0]].
    destruct (extract_loop_step cfg remaining attempt (Some lastError) w
                cause0 H0) as (w1 & Hloop & Ha & Hn).
    destruct (IH (attempt + 1)%Z (Error cause0) w1)
      as (cause & w' & Hrun & Hcount & Hlast).
    { intros k Hk. rewrite (response_at_shift w w1 k Ha Hn).
      apply Hall. lia. }
    exists cause, w'. split; [|split].
    + cbn [extract_loop] in *. unfold try_catch in *.
      destruct (attempt_once w) as [[d|e] w0] eqn:Honce.
      * destruct (attempt_once_spec w) as (w0' & _ & _ & Hstep).
        rewrite H0, Honce in Hstep. discriminate.
      * rewrite Hloop. exact Hrun.
    + unfold requests_made in *. rewrite Hcount, Hn. lia.
    + destruct remaining as [|n].
      * simpl in Hlast. rewrite Hlast. exact H0.
      * rewrite <- (response_at_shift w w1 n Ha Hn). exact Hlast.
Qed.

Lemma extract_loop_throws_only_after_failures (cfg : Config) (remaining : nat) :
  forall (attempt : Z) (lastError : option JsError) (w w' : World)
         (e : JsError),
    extract_loop cfg remaining attempt lastError w = (Throw e, w') ->
    forall k, k < remaining -> attempt_failure (response_at w k) <> None.
Proof.
  induction remaining as [|remaining IH];
    intros attempt lastError w w' e Hthrow k Hk; [lia|].
  destruct (attempt_failure (response_at w 0)) as [cause0|] eqn:H0.
  - destruct (extract_loop_step cfg remaining attempt lastError w cause0 H0)
      as (w1 & Hloop & Ha & Hn).
    destruct k as [|k]; [congruence|].
    rewrite <- (response_at_shift w w1 k Ha Hn).
    rewrite Hloop in Hthrow.
    apply (IH _ _ _ _ _ Hthrow). lia.
  - destruct (attempt_once_spec w) as (w0 & _ & _ & Hstep).
    rewrite H0 in Hstep. destruct Hstep as [d Hstep].
    cbn [extract_loop] in Hthrow. unfold try_catch in Hthrow.
    rewrite Hstep in Hthrow. discriminate.
Qed.

(** C6: with at least one attempt configured, [extractData] throws only
    when every one of its [retryAttempts] requests fails, a response that
    is not an array failing like a rejected request; it has then made
    exactly [retryAttempts] requests, and the error it throws reads
    "Failed to extract data after N attempts: " followed by the message of
    the failure of the last attempt. *)
Theorem extractData_failure (cfg : Config) (w : World) :
  (1 <= retryAttempts cfg)%Z ->
  let n := Z.to_nat (retryAttempts cfg) in
  let all_fail :=
    forall k, k < n -> attempt_failure (response_at w k) <> None in
  (forall e w', extractData cfg w = (Throw e, w') -> all_fail) /\
  (all_fail ->
   exists cause w',
     attempt_failure (response_at w (n - 1)) = Some cause /\
     extractData cfg w = (Throw (Error (failure_text cfg cause)), w') /\
     requests_made w' = requests_made w + n).
Proof.
  intros Hpos n all_fail. split.
  - intros e w' Hthrow.
    exact (extract_loop_throws_only_after_failures cfg n 1%Z None w w' e Hthrow).
  - intros Hall. unfold extractData. fold n.
    destruct n as [|m] eqn:Hn; [lia|].
    destruct (attempt_failure (response_at w 0)) as [cause0|] eqn:H0;
      [|exfalso; apply (Hall 0); [lia | exact H0]].
    destruct (extract_loop_step cfg m 1%Z None w cause0 H0)
      as (w1 & Hloop & Ha & Hnet).
    destruct (extract_loop_all_fail cfg m (1 + 1)%Z (Error cause0) w1)
      as (cause & w' & Hrun & Hcount & Hlast).
    { intros k Hk. rewrite (response_at_shift w w1 k Ha Hnet).
      apply Hall. lia. }
    exists cause, w'. split; [|split].
    + replace (S m - 1) with m by lia.
      destruct m as [|m'].
      * simpl in Hlast. rewrite Hlast. exact H0.
      * rewrite <- (response_at_shift w w1 m' Ha Hnet). exact Hlast.
    + rewrite Hloop. exact Hrun.
    + unfold requests_made in *. rewrite Hcount, Hnet. lia.
Qed.

End ExtractProperties.

(** ** Slugs *)

(** *** Hyphen-separated words *)

Section Words.

Lemma is_hyphen_true (c : N) : is_hyphen c = true -> c = hyphen.
Proof. apply N.eqb_eq. Qed.

Lemma tokens_cons (s : jsstring) : tokens s = hd [] (tokens s) :: tl (tokens s).
Proof.
  destruct s as [|c t]; simpl; [reflexivity|].
  destruct (is_hyphen c); [reflexivity|].
  destruct (tokens t); reflexivity.
Qed.

Lemma tokens_plain_cons (c : N) (t : jsstring) :
  is_hyphen c = false ->
  tokens (c :: t) = (c :: hd [] (tokens t)) :: tl (tokens t).
Proof.
  intros Hc. simpl. rewrite Hc, (tokens_cons t). reflexivity.
Qed.

Lemma tokens_hyphen_cons (c : N) (t : jsstring) :
  is_hyphen c = true -> tokens (c :: t) = [] :: tokens t.
Proof. intros Hc. simpl. rewrite Hc. reflexivity. Qed.

Lemma words_tokens (s : jsstring) :
  words s = filter nonempty [hd [] (tokens s)] ++ filter nonempty (tl (tokens s)).
Proof.
  unfold words. rewrite (tokens_cons s) at 1. simpl.
  destruct (nonempty (hd [] (tokens s))); reflexivity.
Qed.

Lemma tokens_app_hyphen (x y : jsstring) :
  tokens (x ++ hyphen :: y) = tokens x ++ tokens y.
Proof.
  induction x as [|c x IH]; [reflexivity|].
  simpl. rewrite IH. destruct (is_hyphen c); [reflexivity|].
  rewrite (tokens_cons x). reflexivity.
Qed.

Lemma words_app_hyphen (x y : jsstring) :
  words (x ++ hyphen :: y) = words x ++ words y.
Proof. unfold words. rewrite tokens_app_hyphen. apply filter_app. Qed.

Lemma join_cons (sep p : jsstring) (q : jsstring) (rest : list jsstring) :
  join sep (p :: q :: rest) = p ++ sep ++ join sep (q :: rest).
Proof. reflexivity. Qed.

Lemma tokens_not_nil (s : jsstring) : tokens s <> [].
Proof. rewrite (tokens_cons s). discriminate. Qed.

Lemma join_tokens (s : jsstring) : join [hyphen] (tokens s) = s.
Proof.
  induction s as [|c t IH]; [reflexivity|].
  simpl tokens.
  destruct (tokens t) as [|q rest] eqn:Ht; [destruct (tokens_not_nil t Ht)|].
  destruct (is_hyphen c) eqn:Hc.
  - rewrite join_cons, IH. apply is_hyphen_true in Hc. subst c. reflexivity.
  - destruct rest as [|q' rest].
    + rewrite <- IH. reflexivity.
    + rewrite <- IH. reflexivity.
Qed.

(** A string without leading, trailing or doubled hyphen is the join of
    its words. *)
Lemma clean_tokens (s : jsstring) :
  s <> [] -> has_double_hyphen s = false -> ends_with_hyphen s = false ->
  forallb nonempty (tl (tokens s)) = true /\
  (starts_with_hyphen s = false -> nonempty (hd [] (tokens s)) = true).
Proof.
  induction s as [|c t IH]; intros Hne Hdd Hend; [contradiction|].
  simpl in Hdd. apply orb_false_iff in Hdd as [Hpair Hdd].
  destruct (is_hyphen c) eqn:Hc.
  - rewrite (tokens_hyphen_cons c t Hc). cbn [hd tl].
    split; [|unfold starts_with_hyphen; simpl; congruence].
    destruct t as [|c' t']; [simpl in Hend; congruence|].
    destruct IH as [Hrest Hfirst]; [discriminate | exact Hdd | exact Hend |].
    rewrite (tokens_cons (c' :: t')). cbn [forallb].
    rewrite Hrest, Hfirst; [reflexivity|].
    simpl in Hpair. exact Hpair.
  - rewrite (tokens_plain_cons c t Hc). cbn [hd tl].
    split; [|reflexivity].
    destruct t as [|c' t']; [reflexivity|].
    apply IH; [discriminate | exact Hdd | exact Hend].
Qed.

Lemma filter_all {A} (p : A -> bool) (l : list A) :
  forallb p l = true -> filter p l = l.
Proof.
  induction l as [|x l IH]; simpl; [reflexivity|].
  intros Hall. apply andb_true_iff in Hall as [-> Hl].
  rewrite IH; [reflexivity | exact Hl].
Qed.

Lemma join_words_clean (s : jsstring) :
  starts_with_hyphen s = false -> ends_with_hyphen s = false ->
  has_double_hyphen s = false ->
  join [hyphen] (words s) = s.
Proof.
  intros Hstart Hend Hdd.
  destruct s as [|c t]; [reflexivity|].
  destruct (clean_tokens (c :: t)) as [Hrest Hfirst];
    [discriminate | exact Hdd | exact Hend |].
  unfold words. rewrite filter_all; [apply join_tokens|].
  rewrite (tokens_cons (c :: t)). cbn [forallb].
  rewrite Hrest, (Hfirst Hstart). reflexivity.
Qed.

(** *** The three replacements of [generateId] keep the words *)

Lemma collapse_head (s : jsstring) :
  head_is is_hyphen (collapse_hyphens s) = head_is is_hyphen s.
Proof.
  induction s as [|c t IH]; [reflexivity|].
  cbn [collapse_hyphens].
  destruct (is_hyphen c) eqn:Hc; destruct (head_is is_hyphen t) eqn:Ht;
    cbn [andb head_is]; rewrite ?IH, ?Hc; reflexivity.
Qed.

Lemma collapse_no_double (s : jsstring) :
  has_double_hyphen (collapse_hyphens s) = false.
Proof.
  induction s as [|c t IH]; [reflexivity|].
  simpl. destruct (is_hyphen c && head_is is_hyphen t) eqn:Hpair.
  - exact IH.
  - simpl. rewrite collapse_head, Hpair, IH. reflexivity.
Qed.

Lemma head_hyphen_tokens (s : jsstring) :
  head_is is_hyphen s = true -> tokens s = [] :: tl (tokens s).
Proof.
  destruct s as [|c t]; simpl; [discriminate|].
  intros Hc. rewrite Hc. reflexivity.
Qed.

Lemma collapse_tokens (s : jsstring) :
  hd [] (tokens (collapse_hyphens s)) = hd [] (tokens s) /\
  filter nonempty (tl (tokens (collapse_hyphens s)))
  = filter nonempty (tl (tokens s)).
Proof.
  induction s as [|c t [IHfirst IHrest]]; [split; reflexivity|].
  cbn [collapse_hyphens].
  destruct (is_hyphen c) eqn:Hc; cbn [andb].
  - destruct (head_is is_hyphen t) eqn:Ht.
    + rewrite (tokens_hyphen_cons c t Hc). cbn [hd tl].
      rewrite (head_hyphen_tokens t Ht) in *. simpl in IHfirst.
      simpl tl in IHrest. simpl filter.
      rewrite (tokens_cons (collapse_hyphens t)) at 1.
      rewrite IHfirst. split; [reflexivity | exact IHrest].
    + rewrite (tokens_hyphen_cons c t Hc), (tokens_hyphen_cons c _ Hc).
      cbn [hd tl]. split; [reflexivity|].
      fold (words (collapse_hyphens t)). fold (words t).
      rewrite !words_tokens, IHfirst, IHrest. reflexivity.
  - rewrite (tokens_plain_cons c t Hc), (tokens_plain_cons c _ Hc).
    cbn [hd tl]. rewrite IHfirst. split; [reflexivity | exact IHrest].
Qed.

Lemma words_collapse (s : jsstring) : words (collapse_hyphens s) = words s.
Proof.
  destruct (collapse_tokens s) as [Hfirst Hrest].
  rewrite !words_tokens, Hfirst, Hrest. reflexivity.
Qed.

Lemma words_strip_leading (s : jsstring) :
  words (strip_leading_hyphen s) = words s.
Proof.
  destruct s as [|c t]; [reflexivity|].
  simpl. destruct (is_hyphen c) eqn:Hc; [|reflexivity].
  unfold words. rewrite (tokens_hyphen_cons c t Hc). reflexivity.
Qed.

Lemma strip_trailing_tokens (s : jsstring) :
  hd [] (tokens (strip_trailing_hyphen s)) = hd [] (tokens s) /\
  filter nonempty (tl (tokens (strip_trailing_hyphen s)))
  = filter nonempty (tl (tokens s)).
Proof.
  induction s as [|c t [IHfirst IHrest]]; [split; reflexivity|].
  destruct t as [|c' t'].
  - simpl. destruct (is_hyphen c) eqn:Hc; simpl; rewrite ?Hc;
      split; reflexivity.
  - change (strip_trailing_hyphen (c :: c' :: t'))
      with (c :: strip_trailing_hyphen (c' :: t')).
    destruct (is_hyphen c) eqn:Hc.
    + rewrite (tokens_hyphen_cons c _ Hc), (tokens_hyphen_cons c _ Hc).
      cbn [hd tl]. split; [reflexivity|].
      fold (words (strip_trailing_hyphen (c' :: t'))). fold (words (c' :: t')).
      rewrite !words_tokens, IHfirst, IHrest. reflexivity.
    + rewrite (tokens_plain_cons c _ Hc), (tokens_plain_cons c _ Hc).
      cbn [hd tl]. rewrite IHfirst. split; [reflexivity | exact IHrest].
Qed.

Lemma words_strip_trailing (s : jsstring) :
  words (strip_trailing_hyphen s) = words s.
Proof.
  destruct (strip_trailing_tokens s) as [Hfirst Hrest].
  rewrite !words_tokens, Hfirst, Hrest. reflexivity.
Qed.

End Words.

Section CleanSlugs.

Lemma strip_leading_clean (s : jsstring) :
  has_double_hyphen s = false ->
  starts_with_hyphen (strip_leading_hyphen s) = false /\
  has_double_hyphen (strip_leading_hyphen s) = false.
Proof.
  destruct s as [|c t]; [split; reflexivity|].
  intros Hdd. pose proof Hdd as Hdd'. simpl in Hdd'.
  apply orb_false_iff in Hdd' as [Hpair Hrest].
  simpl. destruct (is_hyphen c) eqn:Hc.
  - split; [exact Hpair | exact Hrest].
  - split; [exact Hc | exact Hdd].
Qed.

Lemma strip_trailing_head (s : jsstring) :
  head_is is_hyphen s = false ->
  head_is is_hyphen (strip_trailing_hyphen s) = false.
Proof.
  destruct s as [|c [|c' t]]; simpl; intros Hc; rewrite ?Hc; auto.
Qed.

Lemma strip_trailing_no_double (s : jsstring) :
  has_double_hyphen s = false ->
  has_double_hyphen (strip_trailing_hyphen s) = false.
Proof.
  induction s as [|c t IH]; [reflexivity|].
  intros Hdd. simpl in Hdd. apply orb_false_iff in Hdd as [Hpair Hrest].
  destruct t as [|c' t'].
  - simpl. destruct (is_hyphen c) eqn:Hc; simpl; rewrite ?Hc; reflexivity.
  - change (strip_trailing_hyphen (c :: c' :: t'))
      with (c :: strip_trailing_hyphen (c' :: t')).
    cbn [has_double_hyphen]. rewrite (IH Hrest), orb_false_r.
    destruct (is_hyphen c); [|reflexivity].
    cbn [andb] in *. apply strip_trailing_head, Hpair.
Qed.

Lemma strip_trailing_end (s : jsstring) :
  has_double_hyphen s = false ->
  ends_with_hyphen (strip_trailing_hyphen s) = false.
Proof.
  induction s as [|c t IH]; [reflexivity|].
  intros Hdd. simpl in Hdd. apply orb_false_iff in Hdd as [Hpair Hrest].
  destruct t as [|c' t'].
  - simpl. destruct (is_hyphen c) eqn:Hc; simpl; rewrite ?Hc; reflexivity.
  - change (strip_trailing_hyphen (c :: c' :: t'))
      with (c :: strip_trailing_hyphen (c' :: t')).
    specialize (IH Hrest).
    destruct (strip_trailing_hyphen (c' :: t')) as [|d u] eqn:Hs.
    + destruct t' as [|c'' t'']; [|simpl in Hs; discriminate].
      simpl in Hs. destruct (is_hyphen c') eqn:Hc'; [|discriminate].
      simpl in Hpair. rewrite Hc', andb_true_r in Hpair.
      simpl. exact Hpair.
    + exact IH.
Qed.

(** After the replacements of [generateId] no hyphen leads, trails or is
    doubled, and the result is the join of the words of the input. *)
Lemma normalized_clean (s : jsstring) :
  let u := strip_edge_hyphens (collapse_hyphens s) in
  starts_with_hyphen u = false /\ ends_with_hyphen u = false /\
  has_double_hyphen u = false.
Proof.
  cbv zeta. unfold strip_edge_hyphens.
  destruct (strip_leading_clean _ (collapse_no_double s)) as [Hstart Hdd].
  repeat split.
  - apply strip_trailing_head, Hstart.
  - apply strip_trailing_end, Hdd.
  - apply strip_trailing_no_double, Hdd.
Qed.

Lemma normalized_words (s : jsstring) :
  strip_edge_hyphens (collapse_hyphens s) = join [hyphen] (words s).
Proof.
  destruct (normalized_clean s) as (Hstart & Hend & Hdd).
  rewrite <- (join_words_clean _ Hstart Hend Hdd).
  unfold strip_edge_hyphens.
  rewrite words_strip_trailing, words_strip_leading, words_collapse.
  reflexivity.
Qed.

Lemma words_nonempty (s : jsstring) : forallb nonempty (words s) = true.
Proof.
  unfold words. induction (tokens s) as [|w ws IH]; [reflexivity|].
  simpl. destruct (nonempty w) eqn:Hw; [|exact IH].
  simpl. rewrite Hw, IH. reflexivity.
Qed.

Lemma join_nonempty (sep w : jsstring) (ws : list jsstring) :
  nonempty w = true -> nonempty (join sep (w :: ws)) = true.
Proof.
  destruct w as [|c w]; [discriminate|].
  intros _. destruct ws; reflexivity.
Qed.

Lemma join_app (sep : jsstring) (a b : list jsstring) :
  a <> [] -> b <> [] ->
  join sep (a ++ b) = join sep a ++ sep ++ join sep b.
Proof.
  induction a as [|p a IH]; intros Ha Hb; [contradiction|].
  destruct a as [|q a].
  - destruct b as [|r b]; [contradiction | reflexivity].
  - change ((p :: q :: a) ++ b) with (p :: (q :: a) ++ b).
    change ((q :: a) ++ b) with (q :: a ++ b) at 1.
    rewrite join_cons.
    change (q :: a ++ b) with ((q :: a) ++ b).
    rewrite IH by (assumption || discriminate).
    rewrite join_cons, <- !app_assoc. reflexivity.
Qed.

(** Joining the non-empty joins of several word lists is joining all the
    words. *)
Lemma join_of_joins (sep : jsstring) (groups : list (list jsstring)) :
  forallb (forallb nonempty) groups = true ->
  join sep (filter nonempty (map (join sep) groups)) = join sep (List.concat groups)
  /\ (filter nonempty (map (join sep) groups) = [] <-> List.concat groups = []).
Proof.
  induction groups as [|g groups IH]; [intros _; split; [reflexivity | tauto]|].
  intros Hall. simpl in Hall. apply andb_true_iff in Hall as [Hg Hgs].
  destruct (IH Hgs) as [IHjoin IHnil]. simpl map. cbn [List.concat].
  destruct g as [|w ws].
  - simpl. split; assumption.
  - simpl in Hg. apply andb_true_iff in Hg as [Hw Hws].
    cbn [filter]. rewrite (join_nonempty sep w ws Hw).
    split; [|split; discriminate].
    destruct (List.concat groups) as [|c cs] eqn:Hc.
    + rewrite (proj2 IHnil eq_refl), app_nil_r. reflexivity.
    + destruct (filter nonempty (map (join sep) groups)) as [|f fs] eqn:Hf.
      * discriminate (proj1 IHnil eq_refl).
      * rewrite join_app by discriminate.
        rewrite join_cons, IHjoin. reflexivity.
Qed.

End CleanSlugs.

(** *** The id of a record *)

Section IdProperties.
Context {H : Host}.
Import TransformService.

Lemma slug_char_not_hyphen (c : N) : is_slug_char c = true -> is_hyphen c = false.
Proof.
  unfold is_slug_char, is_hyphen, hyphen. intros Hc.
  apply N.eqb_neq. intros ->. vm_compute in Hc. discriminate.
Qed.

Lemma replaced_is_hyphen (c : N) :
  is_hyphen (if is_slug_char c then c else hyphen) = not_slug_char c.
Proof.
  unfold not_slug_char. destruct (is_slug_char c) eqn:Hc; simpl.
  - apply slug_char_not_hyphen, Hc.
  - reflexivity.
Qed.

Lemma replace_runs_collapse (s : jsstring) :
  replace_runs s = collapse_hyphens (replace_non_alnum s).
Proof.
  induction s as [|c t IH]; [reflexivity|].
  cbn [replace_runs replace_non_alnum map collapse_hyphens].
  fold (replace_non_alnum t).
  rewrite replaced_is_hyphen.
  assert (Hhead : head_is is_hyphen (replace_non_alnum t)
                  = head_is not_slug_char t).
  { destruct t as [|c' t']; [reflexivity|]. simpl. apply replaced_is_hyphen. }
  rewrite Hhead. change (not_slug_char c) with (negb (is_slug_char c)).
  destruct (is_slug_char c); cbn [negb andb].
  - rewrite IH. reflexivity.
  - destruct (head_is not_slug_char t); rewrite IH; reflexivity.
Qed.

Lemma slugify_words (s : jsstring) :
  slugify s = join [hyphen] (words (replace_non_alnum (toLowerCase s))).
Proof.
  unfold slugify. rewrite replace_runs_collapse. apply normalized_words.
Qed.

(** C7, as amended: for a record whose [name] and [country] are strings
    and whose [state-province] is a string or absent, the generated id has
    no leading hyphen, no trailing hyphen and no two consecutive hyphens,
    and it is made of the slug of the country, the slug of the
    state-province when there is one, and the slug of the name, in this
    order, joined by single hyphens, the slugs that are empty being left
    out. *)
Theorem generateId_slug (record : JsValue) (name country : jsstring) :
  get record (str "name") = JStr name ->
  get record (str "country") = JStr country ->
  (truthy (get record (str "state-province")) = true ->
   typeof_string (get record (str "state-province")) = true) ->
  exists id,
    generateId record = Ok id /\
    starts_with_hyphen id = false /\
    ends_with_hyphen id = false /\
    has_double_hyphen id = false /\
    id = join [hyphen]
           (filter nonempty
              ([slugify country]
               ++ state_slug (get record (str "state-province"))
               ++ [slugify name])).
Proof.
  intros Hname Hcountry Hstate.
  set (n := replace_non_alnum (toLowerCase name)).
  set (c := replace_non_alnum (toLowerCase country)).
  assert (Hshape : exists st : jsstring,
             generateId record
             = Ok (strip_edge_hyphens
                     (collapse_hyphens
                        (c ++ [hyphen]
                         ++ (if negb (is_empty st) then st ++ [hyphen] else [])
                         ++ n))) /\
             map (join [hyphen]) [words c; words st; words n]
             = [slugify country] ++ 
               (if is_empty st then [[]] else [join [hyphen] (words st)])
               ++ [slugify name] /\
             filter nonempty
               (if is_empty st then [[]] else [join [hyphen] (words st)])
             = filter nonempty (state_slug (get record (str "state-province")))).
  { unfold generateId. rewrite Hname, Hcountry. cbn [call_toLowerCase bind_outcome].
    fold n. fold c.
    destruct (get record (str "state-province")) as [| |b|x|s|items|props] eqn:Hst;
      cbn [truthy] in *;
      try (exists []; cbn [bind_outcome]; rewrite !slugify_words;
           split; [reflexivity | split; reflexivity]).
    - destruct b; [discriminate (Hstate eq_refl)|].
      exists []. cbn [bind_outcome]. rewrite !slugify_words.
      split; [reflexivity | split; reflexivity].
    - destruct (num_truthy x); [discriminate (Hstate eq_refl)|].
      exists []. cbn [bind_outcome]. rewrite !slugify_words.
      split; [reflexivity | split; reflexivity].
    - destruct s as [|ch s'].
      + exists []. cbn. rewrite !slugify_words.
        split; [reflexivity | split; reflexivity].
      + exists (replace_non_alnum (toLowerCase (ch :: s'))).
        cbn [is_empty negb call_toLowerCase bind_outcome state_slug].
        rewrite !slugify_words.
        split; [reflexivity|].
        destruct (replace_non_alnum (toLowerCase (ch :: s')));
          split; reflexivity.
    - discriminate (Hstate eq_refl).
    - discriminate (Hstate eq_refl). }
  destruct Hshape as (st & Hid & Hparts & Hstate_part).
  eexists. split; [exact Hid|].
  destruct (normalized_clean
              (c ++ [hyphen]
               ++ (if negb (is_empty st) then st ++ [hyphen] else []) ++ n))
    as (Hstart & Hend & Hdd).
  repeat split; try assumption.
  rewrite normalized_words.
  assert (Hwords : words (c ++ [hyphen]
                          ++ (if negb (is_empty st) then st ++ [hyphen] else [])
                          ++ n)
                   = List.concat [words c; words st; words n]).
  { cbn [List.concat]. rewrite app_nil_r.
    change (c ++ [hyphen] ++ ?x) with (c ++ hyphen :: x).
    rewrite words_app_hyphen. f_equal.
    destruct st as [|ch st']; [reflexivity|].
    cbn [is_empty negb]. rewrite <- app_assoc.
    change ((ch :: st') ++ [hyphen] ++ n) with ((ch :: st') ++ hyphen :: n).
    apply words_app_hyphen. }
  rewrite Hwords.
  destruct (join_of_joins [hyphen] [words c; words st; words n]) as [Hjoin _].
  { cbn [forallb]. rewrite !words_nonempty. reflexivity. }
  rewrite <- Hjoin, Hparts, !filter_app.
  do 3 f_equal. exact Hstate_part.
Qed.

End IdProperties.

(** ** The orchestrator and the tabular rendering *)

Section PipelineProperties.
Context {H : Host}.

(** What [run] comes to: the error of the extraction, or the TypeError of
    calling [this.extract.validateData], which no method of the extractor
    answers. *)
Lemma run_outcome (cfg : ExtractService.Config) (w : World) :
  fst (ETLService.run cfg w)
  = match fst (ExtractService.extractData cfg (snd (now w))) with
    | Ok _ => Throw (TypeError (NotAFunction "this.extract.validateData"))
    | Throw e => Throw e
    end.
Proof.
  set (w0 := snd (now w)).
  unfold ETLService.run. unfold bind at 1.
  change (now w) with (@Ok JsError Z (answer (clock w) (asked (clock w))), w0).
  cbv iota beta. unfold try_catch. unfold bind at 1.
  destruct (ExtractService.extractData cfg w0) as [[raw|e] w1]; reflexivity.
Qed.

(** [run] never returns a result. *)
Lemma run_never_succeeds (cfg : ExtractService.Config) (w : World) :
  is_ok (fst (ETLService.run cfg w)) = false.
Proof.
  rewrite run_outcome.
  destruct (fst (ExtractService.extractData cfg (snd (now w)))); reflexivity.
Qed.

(** A canonical record has no [state] and no [updatedAt] key, so these
    two columns of its row are empty. *)
Lemma canonical_row_gaps (record : JsValue) (i : nat) (w w' : World)
    (r : JsValue) :
  TransformService.transformRecord record i w = (Ok r, w') ->
  LoadService.csv_cell r "state" = Ok [] /\
  LoadService.csv_cell r "updatedAt" = Ok [].
Proof.
  intros Hr. apply transformRecord_ok_inv in Hr as (id & _ & ->).
  split; reflexivity.
Qed.

End PipelineProperties.

(** ** Further properties of the extractor *)

Section ExtractTraces.
Context {H : Host}.
Import ExtractService.

Lemma first_success_ext (f g : nat -> AxiosOutcome) (n : nat) :
  (forall k, f k = g k) -> first_success f n = first_success g n.
Proof.
  revert f g. induction n as [|n IH]; intros f g Hfg; [reflexivity|].
  simpl. rewrite (Hfg 0).
  rewrite (IH (fun k => f (S k)) (fun k => g (S k))); [reflexivity|].
  intros k. apply Hfg.
Qed.

Lemma first_success_some (f : nat -> AxiosOutcome) (n k : nat) :
  first_success f n = Some k <->
  k < n /\ attempt_failure (f k) = None /\
  forall j, j < k -> attempt_failure (f j) <> None.
Proof.
  revert f k. induction n as [|n IH]; intros f k; simpl.
  - split; [discriminate | intros [Hk _]; lia].
  - destruct (attempt_failure (f 0)) as [cause|] eqn:H0.
    + destruct (first_success (fun j => f (S j)) n) as [k'|] eqn:Hrest.
      * apply IH in Hrest as (Hlt & Hok & Hbefore). split.
        -- intros Heq. injection Heq as <-. repeat split; [lia | exact Hok |].
           intros [|j] Hj; [congruence | apply Hbefore; lia].
        -- intros (Hk & Hok' & Hbefore').
           destruct k as [|k]; [congruence|]. f_equal. f_equal.
           destruct (Nat.lt_trichotomy k k') as [Hlt'|[Heq|Hgt]];
             [|exact (eq_sym Heq)|].
           ++ destruct (Hbefore k Hlt' Hok').
           ++ destruct (Hbefore' (S k')); [lia | exact Hok].
      * split; [discriminate|]. intros (Hk & Hok & Hbefore).
        destruct k as [|k]; [congruence|].
        assert (Hsome : first_success (fun j => f (S j)) n = Some k).
        { apply IH. repeat split; [lia | exact Hok |].
          intros j Hj. apply (Hbefore (S j)). lia. }
        congruence.
    + split.
      * intros Heq. injection Heq as <-. repeat split; [lia | exact H0 |].
        intros j Hj. lia.
      * intros (Hk & Hok & Hbefore).
        destruct k as [|k]; [reflexivity|].
        destruct (Hbefore 0); [lia | exact H0].
Qed.

Lemma attempt_once_world (w : World) :
  snd (attempt_once w) = snd (axios w).
Proof.
  unfold attempt_once, makeApiRequest, bind, axios, ask.
  destruct (answer (network w) (asked (network w))) as [d|[status text|m|m]];
    try reflexivity.
  cbn. destruct (negb (truthy d) || negb (isArray d)); reflexivity.
Qed.

Lemma attempt_once_result (w : World) :
  match attempt_failure (response_at w 0) with
  | Some cause => fst (attempt_once w) = Throw (Error cause)
  | None => exists d, response_at w 0 = Resolved d /\ isArray d = true /\
                      fst (attempt_once w) = Ok d
  end.
Proof.
  unfold attempt_once, makeApiRequest, bind, axios, ask, response_at.
  rewrite Nat.add_0_r.
  destruct (answer (network w) (asked (network w))) as [d|[status text|m|m]];
    try reflexivity.
  destruct d; cbn; rewrite ?orb_true_r; try reflexivity.
  eexists. repeat split.
Qed.

(** The wait after a failed attempt: one delay, capped, unless the attempt
    was the last. *)
Lemma wait_effect (cfg : Config) (attempt : Z) (w : World) :
  exists w',
    (if (attempt <? retryAttempts cfg)%Z
     then bind (calculateRetryDelay cfg attempt) (fun delay => sleep delay)
     else ret tt) w = (Ok tt, w') /\
    network w' = network w /\
    slept w'
    = (if (attempt <? retryAttempts cfg)%Z
       then [retry_delay cfg attempt (next_random w)] else [])
      ++ slept w.
Proof.
  destruct (attempt <? retryAttempts cfg)%Z.
  - unfold bind, calculateRetryDelay, bind, random, ret, sleep, ask,
      next_random. cbn. eexists. repeat split.
  - exists w. repeat split.
Qed.

Lemma retry_delay_capped (cfg : Config) (attempt : Z) (rnd : Q) :
  (retry_delay cfg attempt rnd <= maxRetryDelay cfg)%Q.
Proof. unfold retry_delay. apply Q.le_min_r. Qed.

(** The loop of [extractData], attempt by attempt: where it stops, with
    what, after how many requests and which waits. *)
Lemma extract_loop_trace (cfg : Config) (remaining : nat) :
  forall (attempt : Z) (lastError : option JsError) (w : World),
    remaining = 0 \/
    (attempt + Z.of_nat remaining = retryAttempts cfg + 1)%Z ->
    exists outcome w' waits,
      extract_loop cfg remaining attempt lastError w = (outcome, w') /\
      slept w' = waits ++ slept w /\
      Forall (fun d => (d <= maxRetryDelay cfg)%Q) waits /\
      match first_success (response_at w) remaining with
      | Some k =>
          exists d, response_at w k = Resolved d /\ isArray d = true /\
                    outcome = Ok d /\
                    requests_made w' = requests_made w + S k /\
                    List.length waits = k
      | None =>
          is_ok outcome = false /\
          requests_made w' = requests_made w + remaining /\
          List.length waits = remaining - 1
      end.
Proof.
  induction remaining as [|r IH]; intros attempt lastError w Hinv.
  - cbn [extract_loop first_success].
    destruct lastError as [e|]; eexists; exists w, []; cbn;
      unfold requests_made; rewrite Nat.add_0_r; repeat split; constructor.
  - destruct Hinv as [Hinv|Hinv]; [discriminate|].
    cbn [extract_loop first_success]. unfold try_catch.
    destruct (attempt_once w) as [res w0] eqn:Honce.
    pose proof (attempt_once_world w) as Hworld.
    pose proof (attempt_once_result w) as Hres.
    rewrite Honce in Hworld, Hres. cbn [fst snd] in Hworld, Hres.
    destruct (attempt_failure (response_at w 0)) as [cause|] eqn:H0.
    + subst res.
      destruct (wait_effect cfg attempt w0) as (w1 & Hwait & Hnet & Hslept).
      unfold bind at 1. rewrite Hwait.
      destruct (IH (attempt + 1)%Z (Some (Error cause)) w1) as
        (outcome & w' & waits & Hloop & Hlog & Hcap & Hcase).
      { right. lia. }
      assert (Hshift : forall k, response_at w (S k) = response_at w1 k).
      { intros k. unfold response_at. rewrite Hnet, Hworld. cbn.
        f_equal. lia. }
      assert (Hreq : requests_made w1 = S (requests_made w)).
      { unfold requests_made. rewrite Hnet, Hworld. reflexivity. }
      rewrite (first_success_ext _ _ r Hshift).
      exists outcome, w'.
      exists (waits ++ (if (attempt <? retryAttempts cfg)%Z
                        then [retry_delay cfg attempt (next_random w0)]
                        else [])).
      split; [exact Hloop|]. split.
      { rewrite Hlog, Hslept, Hworld, <- app_assoc. reflexivity. }
      split.
      { apply Forall_app. split; [exact Hcap|].
        destruct (attempt <? retryAttempts cfg)%Z; repeat constructor.
        apply retry_delay_capped. }
      rewrite length_app.
      destruct (first_success (response_at w1) r) as [k|] eqn:Hfirst.
      * destruct Hcase as (d & Hd & Harr & Hout & Hcount & Hlen).
        exists d. rewrite Hshift. repeat split; try assumption; [lia|].
        apply first_success_some in Hfirst as (Hk & _ & _).
        assert (Hlt : (attempt <? retryAttempts cfg)%Z = true)
          by (apply Z.ltb_lt; lia).
        rewrite Hlt, Hlen. simpl. lia.
      * destruct Hcase as (Hfail & Hcount & Hlen).
        repeat split; [exact Hfail | lia |].
        destruct r as [|r'].
        -- assert (Hlast : (attempt <? retryAttempts cfg)%Z = false)
             by (apply Z.ltb_ge; lia).
           rewrite Hlast, Hlen. reflexivity.
        -- assert (Hlt : (attempt <? retryAttempts cfg)%Z = true)
             by (apply Z.ltb_lt; lia).
           rewrite Hlt, Hlen. simpl. lia.
    + destruct Hres as (d & Hd & Harr & ->).
      exists (Ok d), w0, []. split; [reflexivity|].
      split; [rewrite Hworld; reflexivity|]. split; [constructor|].
      exists d. repeat split; try assumption.
      unfold requests_made. rewrite Hworld. cbn. lia.
Qed.

Lemma extractData_trace (cfg : Config) (w : World) :
  exists outcome w' waits,
    extractData cfg w = (outcome, w') /\
    slept w' = waits ++ slept w /\
    Forall (fun d => (d <= maxRetryDelay cfg)%Q) waits /\
    match first_success (response_at w) (Z.to_nat (retryAttempts cfg)) with
    | Some k =>
        exists d, response_at w k = Resolved d /\ isArray d = true /\
                  outcome = Ok d /\
                  requests_made w' = requests_made w + S k /\
                  List.length waits = k
    | None =>
        is_ok outcome = false /\
        requests_made w' = requests_made w + Z.to_nat (retryAttempts cfg) /\
        List.length waits = Z.to_nat (retryAttempts cfg) - 1
    end.
Proof.
  apply extract_loop_trace.
  destruct (Z.to_nat (retryAttempts cfg)) eqn:Hn; [left; reflexivity|].
  right. lia.
Qed.

(** X1: when the attempts before the [k+1]-th fail and the [k+1]-th, one
    of the configured ones, receives an array, [extractData] returns that
    array after exactly [k+1] requests and [k] waits. *)
Theorem extractData_first_success (cfg : Config) (w : World) (k : nat) :
  (Z.of_nat k < retryAttempts cfg)%Z ->
  (forall j, j < k -> attempt_failure (response_at w j) <> None) ->
  attempt_failure (response_at w k) = None ->
  exists d w',
    response_at w k = Resolved d /\
    extractData cfg w = (Ok d, w') /\
    requests_made w' = requests_made w + S k /\
    List.length (slept w') = List.length (slept w) + k.
Proof.
  intros Hk Hbefore Hok.
  destruct (extractData_trace cfg w) as
    (outcome & w' & waits & Hrun & Hlog & _ & Hcase).
  assert (Hfirst : first_success (response_at w) (Z.to_nat (retryAttempts cfg))
                   = Some k).
  { apply first_success_some. repeat split; [lia | exact Hok | exact Hbefore]. }
  rewrite Hfirst in Hcase.
  destruct Hcase as (d & Hd & _ & -> & Hcount & Hlen).
  exists d, w'. repeat split; try assumption.
  rewrite Hlog, length_app. lia.
Qed.

(** X2: what [extractData] returns is always an array, and it is the
    response to the first attempt that did not fail. *)
Theorem extractData_returns_first_array (cfg : Config) (w w' : World)
    (d : JsValue) :
  extractData cfg w = (Ok d, w') ->
  isArray d = true /\
  exists k,
    (Z.of_nat k < retryAttempts cfg)%Z /\
    response_at w k = Resolved d /\
    forall j, j < k -> attempt_failure (response_at w j) <> None.
Proof.
  intros Hrun.
  destruct (extractData_trace cfg w) as
    (outcome & w1 & waits & Hrun' & _ & _ & Hcase).
  rewrite Hrun in Hrun'. injection Hrun' as <- <-.
  destruct (first_success (response_at w) (Z.to_nat (retryAttempts cfg)))
    as [k|] eqn:Hfirst.
  - destruct Hcase as (d' & Hd & Harr & Heq & _). injection Heq as <-.
    split; [exact Harr|]. exists k.
    apply first_success_some in Hfirst as (Hk & _ & Hbefore).
    repeat split; [lia | exact Hd | exact Hbefore].
  - destruct Hcase as (Hfail & _). discriminate.
Qed.

(** X3: whatever the outcome, [extractData] waits once between two
    consecutive requests and never after the last one, and no wait is
    longer than [maxRetryDelay]. *)
Theorem extractData_waits (cfg : Config) (w : World) :
  exists outcome w' waits,
    extractData cfg w = (outcome, w') /\
    slept w' = waits ++ slept w /\
    List.length waits = requests_made w' - requests_made w - 1 /\
    Forall (fun d => (d <= maxRetryDelay cfg)%Q) waits.
Proof.
  destruct (extractData_trace cfg w) as
    (outcome & w' & waits & Hrun & Hlog & Hcap & Hcase).
  exists outcome, w', waits. repeat split; try assumption.
  destruct (first_success (response_at w) (Z.to_nat (retryAttempts cfg))).
  - destruct Hcase as (d & _ & _ & _ & Hcount & Hlen). lia.
  - destruct Hcase as (_ & Hcount & Hlen). lia.
Qed.

End ExtractTraces.

(** ** Further properties of the validator and the transformer *)

Section TransformEdges.
Context {H : Host}.
Import TransformService.

(** X4: the structural validator throws, instead of answering false,
    exactly when the first element of the array is not an object: a
    string, a number, a boolean, [null] or [undefined]; the error is the
    TypeError of the [in] operator on the key [name]. *)
Theorem validateExtractedData_throws_iff (d : JsValue) (e : JsError) :
  ExtractService.validateExtractedData d = Throw e <->
  e = TypeError (InOperatorOnNonObject "name") /\
  exists sample rest, d = JArr (sample :: rest) /\ is_object sample = false.
Proof.
  unfold ExtractService.validateExtractedData. split.
  - destruct d as [| | | | |[|sample rest]|]; try discriminate.
    destruct sample; cbn;
      try (intros Heq; injection Heq as <-; split; [reflexivity|];
           eexists; eexists; split; reflexivity).
    + discriminate.
    + intros Heq.
      repeat match type of Heq with
             | context [match ?x with _ => _ end] => destruct x
             end; discriminate.
  - intros (-> & sample & rest & -> & Hobj).
    destruct sample; try discriminate; reflexivity.
Qed.


Lemma is_empty_false (s : jsstring) : is_empty s = false <-> s <> [].
Proof. destruct s; simpl; split; congruence. Qed.








Lemma transform_loop_total (rest : list JsValue) :
  forall i acc errs w,
    is_ok (fst (transform_loop rest i acc errs w)) = true.
Proof.
  intros i acc errs w.
  destruct (transform_loop_spec rest i acc errs w) as (out & w' & -> & _).
  reflexivity.
Qed.

(** X7: [transformData] returns a batch exactly when its argument is an
    array.  Any other value makes it throw before a record is looked at:
    "Input data must be an array", except that [null] and [undefined]
    throw the TypeError of reading [length] in the statement before the
    check. *)
Theorem transformData_needs_array (v : JsValue) (w : World) :
  is_ok (fst (transformData v w)) = isArray v /\
  (isArray v = false ->
   transformData v w
   = (Throw (if is_nullish v then TypeError (ReadOfNullish "length")
             else Error (str "Input data must be an array")), w)).
Proof.
  destruct v as [| | | | |items|]; try (split; [reflexivity | intros _; reflexivity]).
  split; [|discriminate].
  unfold transformData, bind at 1.
  pose proof (transform_loop_total items 0 [] [] w) as Hok.
  destruct (transform_loop items 0 [] [] w) as [[[acc errs]|e] w'];
    [reflexivity | discriminate].
Qed.

(** *** Ids and words *)

Lemma assembled_words (c state n : jsstring) :
  strip_edge_hyphens
    (collapse_hyphens
       (c ++ [hyphen]
        ++ (if negb (is_empty state) then state ++ [hyphen] else []) ++ n))
  = join [hyphen] (words c ++ words state ++ words n).
Proof.
  rewrite normalized_words. f_equal.
  change (c ++ [hyphen] ++ ?x) with (c ++ hyphen :: x).
  rewrite words_app_hyphen. f_equal.
  destruct state as [|ch state']; [reflexivity|].
  cbn [is_empty negb]. rewrite <- app_assoc.
  apply (words_app_hyphen (ch :: state') n).
Qed.

(** The id is the join of the words of the three parts. *)
Lemma generateId_words (record : JsValue) (name country : jsstring) :
  get record (str "name") = JStr name ->
  get record (str "country") = JStr country ->
  (truthy (get record (str "state-province")) = true ->
   typeof_string (get record (str "state-province")) = true) ->
  generateId record
  = Ok (join [hyphen] (List.concat (map words (id_parts record)))).
Proof.
  intros Hn Hc Hstate. unfold generateId, id_parts.
  cbn [map List.concat]. rewrite app_nil_r, Hn, Hc.
  cbn [call_toLowerCase bind_outcome lowered].
  destruct (get record (str "state-province")) as [| |b|x|s|items|props];
    cbn [truthy typeof_string] in *;
    [ | | destruct b | destruct (num_truthy x) | destruct (negb (is_empty s)) | | ];
    try discriminate (Hstate eq_refl);
    cbn [call_toLowerCase bind_outcome lowered];
    rewrite assembled_words; reflexivity.
Qed.

(** X8: the id keeps only the words of letters a-z and digits of the
    lowercased country, state-province and name, in this order: two
    records with the same sequence of words get the same id, whatever
    their punctuation and spacing and wherever the words are divided
    between the three fields. *)
Theorem generateId_same_words (r1 r2 : JsValue) (n1 c1 n2 c2 : jsstring) :
  get r1 (str "name") = JStr n1 -> get r1 (str "country") = JStr c1 ->
  get r2 (str "name") = JStr n2 -> get r2 (str "country") = JStr c2 ->
  (truthy (get r1 (str "state-province")) = true ->
   typeof_string (get r1 (str "state-province")) = true) ->
  (truthy (get r2 (str "state-province")) = true ->
   typeof_string (get r2 (str "state-province")) = true) ->
  List.concat (map words (id_parts r1)) = List.concat (map words (id_parts r2)) ->
  exists id, generateId r1 = Ok id /\ generateId r2 = Ok id.
Proof.
  intros Hn1 Hc1 Hn2 Hc2 Hs1 Hs2 Hwords.
  rewrite (generateId_words r1 n1 c1 Hn1 Hc1 Hs1).
  rewrite (generateId_words r2 n2 c2 Hn2 Hc2 Hs2).
  rewrite Hwords. eexists. split; reflexivity.
Qed.

End TransformEdges.

(** ** Whitespace *)

Section Whitespace.

Lemma head_is_app (p : N -> bool) (x y : jsstring) :
  head_is p (x ++ y) = if is_empty x then head_is p y else head_is p x.
Proof. destruct x; reflexivity. Qed.

Lemma last_is_app (p : N -> bool) (x y : jsstring) :
  last_is p (x ++ y) = if is_empty y then last_is p x else last_is p y.
Proof.
  induction x as [|c x IH]; [destruct y; reflexivity|].
  destruct y as [|d y]; [rewrite app_nil_r; reflexivity|].
  change ((c :: x) ++ d :: y) with (c :: (x ++ d :: y)).
  cbn [is_empty] in *. rewrite <- IH.
  destruct x; reflexivity.
Qed.

Lemma head_is_rev (p : N -> bool) (s : jsstring) :
  head_is p (rev s) = last_is p s.
Proof.
  induction s as [|c t IH]; [reflexivity|].
  cbn [rev]. rewrite head_is_app, IH.
  destruct t as [|c' t']; [reflexivity|].
  cbn [rev]. destruct (rev t'); reflexivity.
Qed.

Lemma last_is_rev (p : N -> bool) (s : jsstring) :
  last_is p (rev s) = head_is p s.
Proof. rewrite <- head_is_rev, rev_involutive. reflexivity. Qed.

Lemma trimStart_head (s : jsstring) :
  head_is is_whitespace (trimStart s) = false.
Proof.
  induction s as [|c t IH]; [reflexivity|].
  simpl. destruct (is_whitespace c) eqn:Hc; [exact IH | exact Hc].
Qed.

Lemma trimStart_fixed (s : jsstring) :
  head_is is_whitespace s = false -> trimStart s = s.
Proof. destruct s as [|c t]; simpl; [reflexivity | intros ->; reflexivity]. Qed.

Lemma trimStart_suffix (s : jsstring) : exists p, s = p ++ trimStart s.
Proof.
  induction s as [|c t [p IH]]; [exists []; reflexivity|].
  simpl. destruct (is_whitespace c).
  - exists (c :: p). simpl. rewrite <- IH. reflexivity.
  - exists []. reflexivity.
Qed.

Lemma trimEnd_last (s : jsstring) :
  last_is is_whitespace (trimEnd s) = false.
Proof. unfold trimEnd. rewrite last_is_rev. apply trimStart_head. Qed.

Lemma trimEnd_fixed (s : jsstring) :
  last_is is_whitespace s = false -> trimEnd s = s.
Proof.
  intros Hlast. unfold trimEnd.
  rewrite trimStart_fixed by (rewrite head_is_rev; exact Hlast).
  apply rev_involutive.
Qed.

Lemma trimEnd_prefix (s : jsstring) : exists q, s = trimEnd s ++ q.
Proof.
  destruct (trimStart_suffix (rev s)) as [p Hp].
  exists (rev p). unfold trimEnd.
  rewrite <- rev_app_distr, <- Hp, rev_involutive. reflexivity.
Qed.

Lemma trimEnd_head (s : jsstring) :
  head_is is_whitespace s = false ->
  head_is is_whitespace (trimEnd s) = false.
Proof.
  intros Hhead. destruct (trimEnd_prefix s) as [q Hq].
  rewrite Hq, head_is_app in Hhead.
  destruct (trimEnd s); [reflexivity | exact Hhead].
Qed.

(** What [trim] returns neither starts nor ends with whitespace, and
    [trim] leaves such a string alone. *)
Lemma trim_trimmed (s : jsstring) :
  head_is is_whitespace (trim s) = false /\
  last_is is_whitespace (trim s) = false.
Proof.
  unfold trim. split.
  - apply trimEnd_head, trimStart_head.
  - apply trimEnd_last.
Qed.

Lemma trim_fixed (s : jsstring) :
  head_is is_whitespace s = false -> last_is is_whitespace s = false ->
  trim s = s.
Proof.
  intros Hhead Hlast. unfold trim.
  rewrite (trimStart_fixed s Hhead). apply trimEnd_fixed, Hlast.
Qed.

Lemma collapse_whitespace_head (s : jsstring) :
  head_is is_whitespace (collapse_whitespace s) = head_is is_whitespace s.
Proof.
  induction s as [|c t IH]; [reflexivity|].
  cbn [collapse_whitespace head_is].
  destruct (is_whitespace c) eqn:Hc.
  - destruct (head_is is_whitespace t) eqn:Ht; [rewrite IH; reflexivity|].
    reflexivity.
  - cbn [head_is]. exact Hc.
Qed.

Lemma collapse_whitespace_some (s : jsstring) :
  is_empty (collapse_whitespace s) = is_empty s.
Proof.
  induction s as [|c t IH]; [reflexivity|].
  cbn [collapse_whitespace is_empty].
  destruct (is_whitespace c); [|reflexivity].
  destruct t as [|c' t']; [reflexivity|].
  cbn [head_is]. destruct (is_whitespace c'); [|reflexivity].
  rewrite IH. reflexivity.
Qed.

Lemma last_is_cons (p : N -> bool) (c : N) (t : jsstring) :
  is_empty t = false -> last_is p (c :: t) = last_is p t.
Proof. destruct t; [discriminate | reflexivity]. Qed.

Lemma collapse_single_spaced (s : jsstring) :
  last_is is_whitespace s = false ->
  single_spaced (collapse_whitespace s) = true.
Proof.
  induction s as [|c t IH]; [reflexivity|]. intros Hlast.
  assert (Htail : is_empty t = false ->
                  single_spaced (collapse_whitespace t) = true).
  { intros Ht. apply IH. rewrite <- (last_is_cons _ c t Ht). exact Hlast. }
  cbn [collapse_whitespace].
  destruct (is_whitespace c) eqn:Hc.
  - assert (Ht : is_empty t = false).
    { destruct t; [simpl in Hlast; congruence | reflexivity]. }
    destruct (head_is is_whitespace t) eqn:Hhead; [exact (Htail Ht)|].
    cbn [single_spaced].
    rewrite collapse_whitespace_some, Ht, collapse_whitespace_head, Hhead.
    rewrite (Htail Ht). reflexivity.
  - cbn [single_spaced]. rewrite Hc.
    destruct t as [|c' t']; [reflexivity|]. apply Htail. reflexivity.
Qed.

Lemma single_spaced_collapse (s : jsstring) :
  single_spaced s = true -> collapse_whitespace s = s.
Proof.
  induction s as [|c t IH]; [reflexivity|].
  cbn [single_spaced collapse_whitespace]. intros Hs.
  apply andb_true_iff in Hs as [Hc Ht]. rewrite (IH Ht).
  destruct (is_whitespace c); [|reflexivity].
  apply andb_true_iff in Hc as [Hc Hhead].
  apply andb_true_iff in Hc as [Hc _].
  apply N.eqb_eq in Hc. subst c.
  destruct (head_is is_whitespace t); [discriminate | reflexivity].
Qed.

Lemma single_spaced_last (s : jsstring) :
  single_spaced s = true -> last_is is_whitespace s = false.
Proof.
  induction s as [|c t IH]; [reflexivity|].
  cbn [single_spaced]. intros Hs.
  apply andb_true_iff in Hs as [Hc Ht].
  destruct t as [|c' t'].
  - simpl. destruct (is_whitespace c); [|reflexivity].
    simpl in Hc. rewrite andb_false_r in Hc. discriminate.
  - change (last_is is_whitespace (c :: c' :: t'))
      with (last_is is_whitespace (c' :: t')).
    apply IH, Ht.
Qed.

End Whitespace.

Section Sanitizing.
Context {H : Host}.
Import TransformService.

(** X9: what [sanitizeString] makes of a string neither starts nor ends
    with whitespace, and its only whitespace characters are single spaces
    between other characters; sanitizing it again changes nothing. *)
Theorem sanitizeString_normal (s : jsstring) :
  let u := sanitizeString (JStr s) in
  head_is is_whitespace u = false /\
  last_is is_whitespace u = false /\
  single_spaced u = true /\
  sanitizeString (JStr u) = u.
Proof.
  cbv zeta. cbn [sanitizeString].
  destruct (trim_trimmed s) as [Hhead Hlast].
  pose proof (collapse_single_spaced (trim s) Hlast) as Hspaced.
  assert (Hhead' : head_is is_whitespace (collapse_whitespace (trim s)) = false)
    by (rewrite collapse_whitespace_head; exact Hhead).
  pose proof (single_spaced_last _ Hspaced) as Hlast'.
  repeat split; try assumption.
  rewrite (trim_fixed _ Hhead' Hlast'). apply single_spaced_collapse, Hspaced.
Qed.

End Sanitizing.

(** ** Deduplicated lists *)

Section FirstOccurrences.

Lemma str_eq_dec (a b : jsstring) : {a = b} + {a <> b}.
Proof. apply (list_eq_dec N.eq_dec). Qed.

Lemma indexOf_none (x : jsstring) (arr : list jsstring) :
  indexOf x arr = None <-> ~ In x arr.
Proof.
  induction arr as [|y rest IH]; simpl; [tauto|].
  destruct (str_eqb y x) eqn:E.
  - apply str_eqb_eq in E. split; [discriminate | intros Hno; tauto].
  - assert (Hne : y <> x).
    { intros ->. rewrite str_eqb_refl in E. discriminate. }
    destruct (indexOf x rest).
    + split; [discriminate|]. intros Hno. exfalso. apply Hno. right.
      destruct (in_dec str_eq_dec x rest) as [Hin|Hout]; [exact Hin|].
      apply IH in Hout. discriminate.
    + split; [|reflexivity]. intros _ [Heq|Hin]; [contradiction|].
      apply (proj1 IH eq_refl Hin).
Qed.

Lemma indexOf_bound (x : jsstring) (arr : list jsstring) (j : nat) :
  indexOf x arr = Some j -> j < List.length arr.
Proof.
  revert j. induction arr as [|y rest IH]; intros j; simpl; [discriminate|].
  destruct (str_eqb y x).
  - intros Heq. injection Heq as <-. lia.
  - destruct (indexOf x rest) as [k|]; [|discriminate].
    intros Heq. injection Heq as <-. specialize (IH k eq_refl). lia.
Qed.

Lemma indexOf_app (x : jsstring) (pre suf : list jsstring) :
  indexOf x (pre ++ suf)
  = match indexOf x pre with
    | Some j => Some j
    | None => match indexOf x suf with
              | Some j => Some (List.length pre + j)
              | None => None
              end
    end.
Proof.
  induction pre as [|y pre IH]; simpl.
  - destruct (indexOf x suf); reflexivity.
  - destruct (str_eqb y x); [reflexivity|]. rewrite IH.
    destruct (indexOf x pre); [reflexivity|].
    destruct (indexOf x suf); reflexivity.
Qed.

(** Position [length pre] of [pre ++ x :: t] is the first occurrence of
    [x] exactly when [x] is not in [pre]. *)
Lemma is_first_occurrence (x : jsstring) (pre t : list jsstring) :
  match indexOf x (pre ++ x :: t) with
  | Some j => Nat.eqb j (List.length pre)
  | None => false
  end = if in_dec str_eq_dec x pre then false else true.
Proof.
  rewrite indexOf_app.
  destruct (in_dec str_eq_dec x pre) as [Hin|Hout].
  - destruct (indexOf x pre) as [j|] eqn:Hj.
    + apply indexOf_bound in Hj. apply Nat.eqb_neq. lia.
    + apply indexOf_none in Hj. contradiction.
  - apply indexOf_none in Hout. rewrite Hout. simpl.
    rewrite str_eqb_refl, Nat.add_0_r. apply Nat.eqb_refl.
Qed.

Lemma first_occurrences_from (arr : list jsstring) (suf : list jsstring) :
  forall pre,
    arr = pre ++ suf ->
    let kept :=
      filter_indexed
        (fun x i => match indexOf x arr with
                    | Some j => Nat.eqb j i
                    | None => false
                    end) (List.length pre) suf in
    NoDup kept /\
    (forall y, In y kept <-> In y suf /\ ~ In y pre) /\
    (NoDup arr -> kept = suf).
Proof.
  induction suf as [|x t IH]; intros pre Harr; cbv zeta.
  - simpl. split; [constructor|].
    split; [intros y; tauto | intros _; reflexivity].
  - cbn [filter_indexed].
    destruct (IH (pre ++ [x])) as (Hnodup & Hmem & Hsame).
    { rewrite <- app_assoc. exact Harr. }
    cbv zeta in Hnodup, Hmem, Hsame.
    rewrite length_app, Nat.add_1_r in Hnodup, Hmem, Hsame.
    pose proof (is_first_occurrence x pre t) as Hfirst.
    rewrite <- Harr in Hfirst. rewrite Hfirst.
    destruct (in_dec str_eq_dec x pre) as [Hin|Hout].
    + split; [exact Hnodup|]. split.
      * intros y. rewrite Hmem, in_app_iff. simpl. split.
        -- intros [Hy Hno]. split; [right; exact Hy | tauto].
        -- intros [[Heq|Hy] Hno]; [subst y; contradiction|].
           split; [exact Hy|]. intros [Hp|[Heq|[]]]; [tauto|].
           subst y. contradiction.
      * intros Hnd. exfalso. rewrite Harr in Hnd.
        apply NoDup_remove_2 in Hnd. apply Hnd, in_or_app. left. exact Hin.
    + split.
      * constructor; [|exact Hnodup].
        rewrite Hmem, in_app_iff. simpl. tauto.
      * split.
        -- intros y. simpl. rewrite Hmem, in_app_iff. simpl. split.
           ++ intros [Heq|[Hy Hno]]; [subst y; tauto | tauto].
           ++ intros [[Heq|Hy] Hno]; [left; exact Heq|].
              destruct (str_eq_dec x y) as [Heq|Hne]; [left; exact Heq|].
              right. split; [exact Hy | tauto].
        -- intros Hnd. f_equal. apply Hsame, Hnd.
Qed.

(** What [filter((x, i, arr) => arr.indexOf(x) === i)] keeps: every
    element once, and a list without duplicates as it is. *)
Lemma keep_first_occurrences_spec (arr : list jsstring) :
  NoDup (keep_first_occurrences arr) /\
  (forall y, In y (keep_first_occurrences arr) <-> In y arr) /\
  (NoDup arr -> keep_first_occurrences arr = arr).
Proof.
  destruct (first_occurrences_from arr arr [] eq_refl) as (Hnd & Hmem & Hsame).
  repeat split; try assumption.
  - intros Hy. apply Hmem in Hy. tauto.
  - intros Hy. apply Hmem. split; [exact Hy | intros []].
Qed.

End FirstOccurrences.

Section ListFields.
Context {H : Host}.
Import TransformService.

Lemma nonblank_strings_in (items : list JsValue) (s : jsstring) :
  In s (nonblank_strings items) <-> In (JStr s) items /\ trim s <> [].
Proof.
  unfold nonblank_strings. rewrite in_flat_map. split.
  - intros (v & Hv & Hin). destruct v; try destruct Hin.
    destruct (is_empty (trim s0)) eqn:He; [destruct Hin|].
    destruct Hin as [<-|[]]. split; [exact Hv|].
    apply is_empty_false, He.
  - intros [Hin Htrim]. exists (JStr s). split; [exact Hin|].
    apply is_empty_false in Htrim. rewrite Htrim. left. reflexivity.
Qed.



(** X10: [transformDomains] returns, without duplicates, exactly the
    entries of the array that are strings with something other than
    whitespace in them, each trimmed and lowercased; entries of other
    types and blank strings are dropped, and no entry is added. *)
Theorem transformDomains_members (items : list JsValue) :
  NoDup (transformDomains (JArr items)) /\
  forall d,
    In d (transformDomains (JArr items)) <->
    exists s, In (JStr s) items /\ trim s <> [] /\ d = toLowerCase (trim s).
Proof.
  cbn [transformDomains].
  destruct (keep_first_occurrences_spec
              (map (fun domain => toLowerCase (trim domain))
                   (nonblank_strings items))) as (Hnd & Hmem & _).
  split; [exact Hnd|]. intros d. rewrite Hmem, in_map_iff. split.
  - intros (s & <- & Hs). apply nonblank_strings_in in Hs as [Hin Htrim].
    exists s. repeat split; assumption.
  - intros (s & Hin & Htrim & ->). exists s. split; [reflexivity|].
    apply nonblank_strings_in. split; assumption.
Qed.

Lemma startsWith_app (p s : jsstring) : startsWith p (p ++ s) = true.
Proof.
  induction p as [|c p IH]; [reflexivity|].
  simpl. rewrite N.eqb_refl. exact IH.
Qed.

Lemma normalize_url_scheme (url : jsstring) : has_scheme (normalize_url url) = true.
Proof.
  unfold normalize_url, has_scheme. cbv zeta.
  destruct (startsWith (str "http://") (trim url)) eqn:Hhttp;
    [cbn [negb andb]; rewrite Hhttp; reflexivity|].
  destruct (startsWith (str "https://") (trim url)) eqn:Hhttps.
  - cbn [negb andb]. rewrite Hhttps. apply orb_true_r.
  - cbn [negb andb]. rewrite startsWith_app. apply orb_true_r.
Qed.


(** A normalized url of a non-blank entry is its own normal form. *)
Lemma normalize_url_fixed (url : jsstring) :
  trim url <> [] ->
  trim (normalize_url url) = normalize_url url /\
  normalize_url url <> [] /\
  normalize_url (normalize_url url) = normalize_url url.
Proof.
  intros Hne.
  destruct (trim_trimmed url) as [Hhead Hlast].
  assert (Htrim : trim (normalize_url url) = normalize_url url).
  { unfold normalize_url. cbv zeta.
    destruct (negb (startsWith (str "http://") (trim url))
              && negb (startsWith (str "https://") (trim url))).
    - apply trim_fixed; [reflexivity|].
      rewrite last_is_app.
      apply is_empty_false in Hne. rewrite Hne. exact Hlast.
    - apply trim_fixed; assumption. }
  assert (Hsome : normalize_url url <> []).
  { unfold normalize_url. cbv zeta.
    destruct (negb (startsWith (str "http://") (trim url))
              && negb (startsWith (str "https://") (trim url)));
      [discriminate | exact Hne]. }
  repeat split; try assumption.
  pose proof (normalize_url_scheme url) as Hscheme.
  unfold has_scheme in Hscheme.
  unfold normalize_url at 1. cbv zeta. rewrite Htrim.
  destruct (startsWith (str "http://") (normalize_url url));
    [reflexivity|].
  cbn [orb] in Hscheme. rewrite Hscheme. reflexivity.
Qed.

(** The urls that [transformWebPages] returns, and that none is
    returned twice. *)
Lemma transformWebPages_in (items : list JsValue) :
  NoDup (transformWebPages (JArr items)) /\
  forall u,
    In u (transformWebPages (JArr items)) <->
    exists s, In (JStr s) items /\ trim s <> [] /\ u = normalize_url s.
Proof.
  cbn [transformWebPages]. fold normalize_url.
  change (fun url : jsstring =>
            let trimmed := trim url in
            if negb (startsWith (str "http://") trimmed)
               && negb (startsWith (str "https://") trimmed)
            then str "https://" ++ trimmed else trimmed)
    with normalize_url.
  destruct (keep_first_occurrences_spec
              (map normalize_url (nonblank_strings items)))
    as (Hnd & Hmem & _).
  split; [exact Hnd|].
  intros u. rewrite Hmem, in_map_iff. split.
  - intros (s & <- & Hs). apply nonblank_strings_in in Hs as [Hi Ht].
    exists s. repeat split; assumption.
  - intros (s & Hi & Ht & ->). exists s. split; [reflexivity|].
    apply nonblank_strings_in. split; assumption.
Qed.

(** X11: [transformWebPages] returns, without duplicates, the trimmed
    non-blank string entries of the array, each with [https://] put in
    front unless it already starts with [http://] or [https://]: every
    url it returns starts with one of the two. *)
Theorem transformWebPages_members (items : list JsValue) :
  NoDup (transformWebPages (JArr items)) /\
  Forall (fun url => has_scheme url = true) (transformWebPages (JArr items)) /\
  forall u,
    In u (transformWebPages (JArr items)) <->
    exists s, In (JStr s) items /\ trim s <> [] /\ u = normalize_url s.
Proof.
  destruct (transformWebPages_in items) as (Hnd & Hin).
  split; [exact Hnd|]. split; [|exact Hin].
  apply Forall_forall. intros u Hu. apply Hin in Hu as (s & _ & _ & ->).
  apply normalize_url_scheme.
Qed.

Lemma nonblank_strings_fixed (l : list jsstring) :
  Forall (fun s => trim s <> []) l -> nonblank_strings (map JStr l) = l.
Proof.
  induction l as [|s l IH]; [reflexivity|]. intros Hall.
  inversion Hall as [|? ? Hs Hl]; subst.
  cbn [map nonblank_strings flat_map].
  apply is_empty_false in Hs. rewrite Hs. cbn [app]. f_equal.
  apply IH, Hl.
Qed.

(** X12: [transformWebPages] is idempotent: applied to the array of urls
    it returned, it returns the same urls. *)
Theorem transformWebPages_idempotent (v : JsValue) :
  transformWebPages (JArr (map JStr (transformWebPages v)))
  = transformWebPages v.
Proof.
  destruct v as [| | | | |items|]; try reflexivity.
  destruct (transformWebPages_in items) as (Hnd & Hmem).
  set (out := transformWebPages (JArr items)) in *.
  assert (Hfixed : Forall (fun u => trim u <> [] /\ normalize_url u = u) out).
  { apply Forall_forall. intros u Hu.
    apply Hmem in Hu as (s & _ & Hs & ->).
    destruct (normalize_url_fixed s Hs) as (Htrim & Hsome & Hnorm).
    rewrite Htrim. split; assumption. }
  assert (Hmap : map normalize_url out = out).
  { clear Hnd Hmem. induction Hfixed as [|u l [_ Hu] _ IH]; [reflexivity|].
    cbn [map]. rewrite Hu, IH. reflexivity. }
  change (keep_first_occurrences
            (map normalize_url (nonblank_strings (map JStr out))) = out).
  rewrite nonblank_strings_fixed
    by (apply (Forall_impl _ (fun u Hu => proj1 Hu) Hfixed)).
  rewrite Hmap. apply keep_first_occurrences_spec, Hnd.
Qed.

End ListFields.

(** ** The shape of canonical records *)

Section CanonicalRecords.
Context {H : Host}.
Import TransformService.










End CanonicalRecords.

(** ** The table *)

Section Table.
Context {H : Host}.
Import LoadService.

Lemma csv_cell_rendered (record : JsValue) (header : string) :
  is_nullish record = false ->
  csv_cell record header = Ok (csv_escape (rendered record header)).
Proof.
  intros Hrec. unfold csv_cell, rendered, csv_escape. rewrite Hrec.
  destruct (get record (str header)); reflexivity.
Qed.

Lemma map_outcome_ok {A B} (f : A -> Outcome JsError B) (g : A -> B)
    (l : list A) :
  (forall x, In x l -> f x = Ok (g x)) -> map_outcome f l = Ok (map g l).
Proof.
  induction l as [|x l IH]; [reflexivity|]. intros Hf.
  cbn [map_outcome map]. rewrite (Hf x (or_introl eq_refl)).
  rewrite IH; [reflexivity|]. intros y Hy. apply Hf. right. exact Hy.
Qed.

Lemma csv_row_rendered (record : JsValue) :
  is_nullish record = false ->
  csv_row record
  = Ok (join [comma] (map (fun h => csv_escape (rendered record h)) headers)).
Proof.
  intros Hrec. unfold csv_row.
  rewrite (map_outcome_ok (csv_cell record)
             (fun h => csv_escape (rendered record h))).
  - reflexivity.
  - intros h _. apply csv_cell_rendered, Hrec.
Qed.

(** A batch without [null] or [undefined] records has a table. *)
Lemma csv_text_ok (records : list JsValue) :
  Forall (fun r => is_nullish r = false) records ->
  exists text, csv_text records = Ok text.
Proof.
  intros Hall. unfold csv_text.
  rewrite (map_outcome_ok csv_row
             (fun r => join [comma]
                         (map (fun h => csv_escape (rendered r h)) headers))).
  - eexists. reflexivity.
  - intros r Hr. apply csv_row_rendered.
    rewrite Forall_forall in Hall. apply Hall, Hr.
Qed.







End Table.

(** ** Storage *)

Section Storage.
Context {H : Host}.
Import LoadService.
Ltac run_save :=
  unfold saveData, ensureDirectories, backupExisting, access_json,
    copy_json_to, generateCsv, bind, try_catch, fs_call, now, ask, ret, lift.

(** A save on a disk that does not fail: the calls are the two [mkdir],
    [access], [copyFile] if there is a file, and the two [writeFile]. *)
Lemma saveData_quiet (batch : TransformResult) (w : World) :
  quiet_disk w ->
  exists w',
    saveData batch w
    = (match data batch, csv_text (data batch) with
       | _ :: _, Throw e => Throw e
       | _, _ => Ok {| recordsLoaded := List.length (data batch) |}
       end, w') /\
    jsonFile (disk w') = Some batch /\
    csvFile (disk w')
    = match data batch, csv_text (data batch) with
      | _ :: _, Ok text => Some text
      | _, _ => csvFile (disk w)
      end /\
    backupFiles (disk w')
    = match jsonFile (disk w) with
      | Some old => (backup_name w, old) :: backupFiles (disk w)
      | None => backupFiles (disk w)
      end /\
    quiet_disk w'.
Proof.
  unfold quiet_disk, backup_name, next_time. intros Hq.
  destruct w as [clk net ent sl [json csv bak [fa fk]]]. cbn in Hq.
  run_save. cbn. rewrite !Hq. cbn.
  destruct json as [old|]; cbn; rewrite ?Hq; cbn;
    (destruct (data batch) as [|r records] eqn:Hdata;
     [|destruct (csv_text (r :: records)) as [text|e]; cbn; rewrite ?Hq; cbn]);
    eexists; (split; [reflexivity|]); cbn; auto.
Qed.

(** X15: on a disk that does not fail, every [saveData] leaves the new
    batch in the JSON file, whatever becomes of the table afterwards; if
    there was a JSON file, its old content is first copied to a backup
    whose name holds the time of the save, and the first save of all makes
    no backup. *)
Theorem saveData_backs_up (batch : TransformResult) (w : World) :
  quiet_disk w ->
  exists outcome w',
    saveData batch w = (outcome, w') /\
    jsonFile (disk w') = Some batch /\
    backupFiles (disk w')
    = match jsonFile (disk w) with
      | Some old => (backup_name w, old) :: backupFiles (disk w)
      | None => backupFiles (disk w)
      end.
Proof.
  intros Hq.
  destruct (saveData_quiet batch w Hq) as (w' & Hrun & Hjson & _ & Hbak & _).
  eexists. exists w'. repeat split; eassumption.
Qed.

(** X16: saving a batch without records succeeds with [recordsLoaded] 0
    and replaces the JSON file, but [generateCsv] returns before writing:
    the CSV file keeps what it had, the table of an earlier save or
    nothing. *)
Theorem saveData_empty_batch (batch : TransformResult) (w : World) :
  quiet_disk w ->
  data batch = [] ->
  exists w',
    saveData batch w = (Ok {| recordsLoaded := 0 |}, w') /\
    jsonFile (disk w') = Some batch /\
    csvFile (disk w') = csvFile (disk w).
Proof.
  intros Hq Hempty.
  destruct (saveData_quiet batch w Hq) as (w' & Hrun & Hjson & Hcsv & _).
  rewrite Hempty in Hrun, Hcsv. exists w'. repeat split; assumption.
Qed.

(** X17: a backup that fails is not reported: when the copy of the old
    JSON file fails and no other call does, [saveData] still succeeds and
    replaces the JSON file, and there is no backup of the old content. *)
Theorem saveData_backup_failure (batch old : TransformResult) (w : World)
    (text msg : jsstring) :
  let calls := faults (disk w) in
  jsonFile (disk w) = Some old ->
  csv_text (data batch) = Ok text ->
  answer calls (3 + asked calls) = Some msg ->
  (forall k, k <> 3 -> answer calls (k + asked calls) = None) ->
  exists w',
    saveData batch w
    = (Ok {| recordsLoaded := List.length (data batch) |}, w') /\
    jsonFile (disk w') = Some batch /\
    backupFiles (disk w') = backupFiles (disk w).
Proof.
  intros calls Hold Hcsv Hcopy Hrest. subst calls.
  destruct w as [clk net ent sl [json csv bak [fa fk]]]. cbn in *.
  subst json.
  pose proof (Hrest 0 ltac:(lia)) as H0.
  pose proof (Hrest 1 ltac:(lia)) as H1.
  pose proof (Hrest 2 ltac:(lia)) as H2.
  pose proof (Hrest 4 ltac:(lia)) as H4.
  pose proof (Hrest 5 ltac:(lia)) as H5.
  cbn in H0, H1, H2, H4, H5.
  run_save. cbn. rewrite H0. cbn. rewrite H1. cbn. rewrite H2. cbn.
  rewrite Hcopy. cbn. rewrite H4. cbn.
  destruct (data batch) as [|r records] eqn:Hdata;
    [|rewrite Hcsv; cbn; rewrite H5; cbn];
    eexists; (split; [reflexivity|]); cbn; auto.
Qed.

(** X18: a save is not atomic: when writing the table fails after the
    calls before it went through, [saveData] throws that error, yet the
    JSON file already holds the new batch while the CSV file still holds
    the old table. *)
Theorem saveData_table_failure (batch : TransformResult) (w : World)
    (text msg : jsstring) :
  let calls := faults (disk w) in
  let before := match jsonFile (disk w) with Some _ => 5 | None => 4 end in
  data batch <> [] ->
  csv_text (data batch) = Ok text ->
  (forall k, k < before -> answer calls (k + asked calls) = None) ->
  answer calls (before + asked calls) = Some msg ->
  exists w',
    saveData batch w = (Throw (Error msg), w') /\
    jsonFile (disk w') = Some batch /\
    csvFile (disk w') = csvFile (disk w).
Proof.
  intros calls before Hdata Hcsv Hnone Hfault. subst calls before.
  destruct w as [clk net ent sl [json csv bak [fa fk]]]. cbn in *.
  destruct json as [old|].
  - pose proof (Hnone 0 ltac:(lia)) as H0.
    pose proof (Hnone 1 ltac:(lia)) as H1.
    pose proof (Hnone 2 ltac:(lia)) as H2.
    pose proof (Hnone 3 ltac:(lia)) as H3.
    pose proof (Hnone 4 ltac:(lia)) as H4.
    cbn in H0, H1, H2, H3, H4, Hfault.
    run_save. cbn. rewrite H0. cbn. rewrite H1. cbn. rewrite H2. cbn.
    rewrite H3. cbn. rewrite H4. cbn.
    destruct (data batch) as [|r records]; [congruence|].
    rewrite Hcsv. cbn. rewrite Hfault.
    eexists. split; [reflexivity|]. cbn. auto.
  - pose proof (Hnone 0 ltac:(lia)) as H0.
    pose proof (Hnone 1 ltac:(lia)) as H1.
    pose proof (Hnone 2 ltac:(lia)) as H2.
    pose proof (Hnone 3 ltac:(lia)) as H3.
    cbn in H0, H1, H2, H3, Hfault.
    run_save. cbn. rewrite H0. cbn. rewrite H1. cbn. rewrite H2. cbn.
    rewrite H3. cbn.
    destruct (data batch) as [|r records]; [congruence|].
    rewrite Hcsv. cbn. rewrite Hfault.
    eexists. split; [reflexivity|]. cbn. auto.
Qed.

Lemma readData_quiet (w : World) :
  quiet_disk w ->
  exists w',
    readData w = (Ok (jsonFile (disk w)), w') /\
    jsonFile (disk w') = jsonFile (disk w) /\
    csvFile (disk w') = csvFile (disk w) /\
    backupFiles (disk w') = backupFiles (disk w) /\
    quiet_disk w'.
Proof.
  unfold quiet_disk. intros Hq.
  destruct w as [clk net ent sl [json csv bak [fa fk]]]. cbn in Hq.
  unfold readData, read_json, ask. cbn. rewrite Hq.
  destruct json; eexists; (split; [reflexivity|]); cbn; auto.
Qed.

(** X19: after a save that went through, [getStatus] of the pipeline
    reports that there is data and how many records were saved; its
    [lastUpdate] is [null], the batch having a [transformationDate] but
    no [timestamp]. *)
Theorem getStatus_after_saveData (batch : TransformResult) (w : World)
    (text : jsstring) :
  quiet_disk w ->
  csv_text (data batch) = Ok text ->
  exists w1 w2,
    saveData batch w
    = (Ok {| recordsLoaded := List.length (data batch) |}, w1) /\
    ETLService.getStatus w1
    = (Ok {| ETLService.hasData := true;
             ETLService.recordCount := List.length (data batch);
             ETLService.lastUpdate := None |}, w2).
Proof.
  intros Hq Hcsv.
  destruct (saveData_quiet batch w Hq) as (w1 & Hrun & Hjson & _ & _ & Hq1).
  destruct (readData_quiet w1 Hq1) as (w2 & Hread & _).
  exists w1, w2. split.
  - rewrite Hrun, Hcsv. destruct (data batch); reflexivity.
  - unfold ETLService.getStatus, bind. rewrite Hread, Hjson. reflexivity.
Qed.



Lemma extract_loop_disk (cfg : ExtractService.Config) (remaining : nat) :
  forall attempt lastError w,
    disk (snd (ExtractService.extract_loop cfg remaining attempt lastError w))
    = disk w.
Proof.
  induction remaining as [|n IH]; intros attempt lastError w.
  - destruct lastError; reflexivity.
  - cbn [ExtractService.extract_loop]. unfold try_catch.
    pose proof (attempt_once_world w) as Hw.
    destruct (ExtractService.attempt_once w) as [[d|e] w1]; cbn [snd] in *;
      subst w1; [reflexivity|].
    unfold bind at 1.
    destruct (wait_effect cfg attempt (snd (axios w))) as (w2 & Hwait & _).
    assert (Hdisk : disk w2 = disk w).
    { revert Hwait. destruct (attempt <? ExtractService.retryAttempts cfg)%Z.
      - unfold bind, ExtractService.calculateRetryDelay, bind, random, ret,
          ExtractService.sleep, ask.
        intros Heq. injection Heq as <-. reflexivity.
      - intros Heq. injection Heq as <-. reflexivity. }
    rewrite Hwait, IH. exact Hdisk.
Qed.

(** X21: [run] stores nothing: for every configuration and every
    environment it throws, and the files are afterwards what they were
    before. *)
Theorem run_stores_nothing (cfg : ExtractService.Config) (w : World) :
  is_ok (fst (ETLService.run cfg w)) = false /\
  disk (snd (ETLService.run cfg w)) = disk w.
Proof.
  split; [apply run_never_succeeds|].
  unfold ETLService.run. unfold bind at 1.
  change (now w) with
    (@Ok JsError Z (answer (clock w) (asked (clock w))), snd (now w)).
  cbv iota beta. unfold try_catch. unfold bind at 1.
  pose proof (extract_loop_disk cfg (Z.to_nat (ExtractService.retryAttempts cfg))
                1%Z None (snd (now w))) as Hdisk.
  fold (ExtractService.extractData cfg) in Hdisk.
  destruct (ExtractService.extractData cfg (snd (now w))) as [[raw|e] w1];
    cbn [snd] in Hdisk; cbn; exact Hdisk.
Qed.

Lemma transformRecord_disk (record : JsValue) (i : nat) (w : World) :
  disk (snd (TransformService.transformRecord record i w)) = disk w.
Proof.
  unfold TransformService.transformRecord, bind at 1, lift.
  destruct (TransformService.prepare record i) as [id|e]; [|reflexivity].
  unfold bind, now, ask.
  destruct (negb _); reflexivity.
Qed.

Lemma transform_loop_disk (rest : list JsValue) :
  forall i acc errs w,
    disk (snd (TransformService.transform_loop rest i acc errs w)) = disk w.
Proof.
  induction rest as [|raw rest IH]; intros i acc errs w; [reflexivity|].
  cbn [TransformService.transform_loop]. unfold bind at 1, observe.
  pose proof (transformRecord_disk raw i w) as Hdisk.
  destruct (TransformService.transformRecord raw i w) as [[r|e] w1];
    cbn [snd] in Hdisk; rewrite IH; exact Hdisk.
Qed.

Lemma transformData_disk (rawData : JsValue) (w : World) :
  disk (snd (TransformService.transformData rawData w)) = disk w.
Proof.
  destruct rawData; try reflexivity.
  unfold TransformService.transformData, bind at 1.
  pose proof (transform_loop_disk items 0 [] [] w) as Hdisk.
  destruct (TransformService.transform_loop items 0 [] [] w)
    as [[[out errs]|e] w1]; cbn [snd] in Hdisk; [|exact Hdisk].
  unfold bind, now, ask, ret. exact Hdisk.
Qed.

Lemma canonical_of_not_nullish (input : nat * JsValue) (r : JsValue) :
  canonical_of input r -> is_nullish r = false.
Proof.
  intros [w Hr]. rewrite transformRecord_fst in Hr.
  destruct (verdict (snd input) (fst input)); [|discriminate].
  injection Hr as <-. reflexivity.
Qed.

Lemma transformData_ok_inv (rawData : JsValue) (w w' : World)
    (batch : TransformResult) :
  TransformService.transformData rawData w = (Ok batch, w') ->
  exists items,
    rawData = JArr items /\
    Forall2 canonical_of (accepted (indexed items)) (data batch) /\
    successfulTransformations (metadata batch) = List.length (data batch).
Proof.
  destruct rawData; try discriminate. intros Hrun. exists items.
  split; [reflexivity|].
  destruct (transform_loop_spec items 0 [] [] w) as (out & w1 & Hloop & Hall).
  cbv zeta in Hloop. cbn [app] in Hloop. fold (indexed items) in Hloop, Hall.
  unfold TransformService.transformData, bind at 1 in Hrun.
  rewrite Hloop in Hrun. unfold bind, now, ret, ask in Hrun.
  cbn beta iota in Hrun. injection Hrun as <- _. split; [exact Hall|].
  reflexivity.
Qed.

(** X22: every batch that [transformData] returns can be saved: on a
    disk that does not fail, [saveData] of it succeeds, reports as many
    loaded records as the batch counts successes, leaves the batch in the
    JSON file and, unless the batch is empty, its table in the CSV
    file. *)
Theorem transformData_batch_is_saved (rawData : JsValue) (w w1 : World)
    (batch : TransformResult) :
  quiet_disk w ->
  TransformService.transformData rawData w = (Ok batch, w1) ->
  exists w2,
    LoadService.saveData batch w1
    = (Ok {| LoadService.recordsLoaded :=
               successfulTransformations (metadata batch) |}, w2) /\
    jsonFile (disk w2) = Some batch /\
    (data batch = [] /\ csvFile (disk w2) = csvFile (disk w) \/
     exists text, LoadService.csv_text (data batch) = Ok text /\
                  csvFile (disk w2) = Some text).
Proof.
  intros Hq Hrun.
  pose proof (transformData_disk rawData w) as Hdisk.
  rewrite Hrun in Hdisk. cbn [snd] in Hdisk.
  destruct (transformData_ok_inv _ _ _ _ Hrun) as (items & _ & Hall & Hcount).
  assert (Hq1 : quiet_disk w1) by (unfold quiet_disk; rewrite Hdisk; exact Hq).
  destruct (saveData_quiet batch w1 Hq1) as (w2 & Hsave & Hjson & Hcsv & _).
  destruct (csv_text_ok (data batch)) as [text Htext].
  { clear - Hall. induction Hall as [|input r ? ? Hr _ IH]; constructor.
    - apply (canonical_of_not_nullish _ _ Hr).
    - exact IH. }
  rewrite Htext in Hsave, Hcsv. rewrite Hcount. exists w2.
  split; [destruct (data batch); exact Hsave|].
  split; [exact Hjson|].
  destruct (data batch) as [|r records].
  - left. rewrite <- Hdisk. split; [reflexivity | exact Hcsv].
  - right. exists text. split; [exact Htext | exact Hcsv].
Qed.

End Storage.

(** ** Traces of a scheduler and of the process *)

Section SchedulerTraces.
Context {H : Host}.
Import SchedulerService.

Lemma Forall_firstn {A} (P : A -> Prop) (n : nat) (l : list A) :
  Forall P l -> Forall P (firstn n l).
Proof.
  revert l. induction n as [|n IH]; intros l Hl; [constructor|].
  destruct Hl; cbn [firstn]; constructor; auto.
Qed.

(** X23: a scheduler never has two runs in flight: after any sequence of
    calls, firings and settled runs at most one call is suspended at its
    [await], the [running] flag is set exactly when there is one, and a
    firing of the cron job during a run is skipped and changes nothing. *)
Theorem one_run_at_a_time (es : list Event) :
  let c := run_events boot es in
  List.length (suspended c) <= 1 /\
  (running (service c) = true <-> suspended c <> []) /\
  (running (service c) = true ->
   forall t, step c (CronFires t) = (c, Nothing)).
Proof.
  intros c.
  pose proof (reachable_gate_consistent es boot boot_gate_consistent) as Hg.
  fold c in Hg. split; [|split].
  - destruct Hg as [[_ [p ->]] | [_ ->]]; simpl; lia.
  - destruct Hg as [[Hr [p Hp]] | [Hr Hp]]; rewrite Hr, Hp; split;
      congruence.
  - intros Hr t. unfold step, runETL_enter. rewrite Hr. reflexivity.
Qed.

Lemma step_history (P : HistoryEntry -> Prop) (c : Configuration) (e : Event) :
  (forall n result finished stamp kind started,
     e = RunSettles n result finished stamp ->
     P (outcome_entry kind started finished stamp result)) ->
  Forall P (history (service c)) ->
  Forall P (history (service (fst (step c e)))).
Proof.
  intros He Hc. destruct c as [[j r h] susp]. cbn [service history] in Hc.
  destruct e as [| |t|t|n result finished stamp]; cbn -[firstn].
  - unfold start. destruct j; exact Hc.
  - unfold stop. destruct j; exact Hc.
  - unfold runETL_enter. destruct r; exact Hc.
  - unfold runManual_enter. destruct r; exact Hc.
  - destruct (nth_error susp n) as [p|]; cbn -[firstn]; [|exact Hc].
    destruct (trigger p).
    + cbn -[firstn]. apply Forall_firstn. constructor; [|exact Hc].
      eapply He. reflexivity.
    + unfold runManual_resume.
      assert (Hnew : Forall P
                (firstn 10
                   (outcome_entry (Some (str "manual")) (started_at p)
                      finished stamp result :: h))).
      { apply Forall_firstn. constructor; [|exact Hc].
        eapply He. reflexivity. }
      destruct result; cbn -[firstn]; exact Hnew.
Qed.

Lemma failed_entry kind started finished stamp cfg w :
  reports_failure
    (outcome_entry kind started finished stamp (fst (ETLService.run cfg w))).
Proof.
  pose proof (run_never_succeeds cfg w) as Hrun.
  destruct (fst (ETLService.run cfg w)); [discriminate|].
  repeat split. discriminate.
Qed.

(** X24: the history of a scheduler never shows a success: when the runs
    that the calls await settle with what [run] produces, every entry of
    the history reports a failure, with an error message and no record
    count. *)
Theorem history_reports_failures_only (es : list Event) :
  Forall produced_by_run es ->
  Forall reports_failure (history (service (run_events boot es))).
Proof.
  assert (Hgen : forall c,
             Forall produced_by_run es ->
             Forall reports_failure (history (service c)) ->
             Forall reports_failure (history (service (run_events c es)))).
  { induction es as [|e es IH]; intros c Hes Hc; [exact Hc|].
    inversion Hes as [|? ? He Hrest]; subst. cbn [run_events].
    apply IH; [exact Hrest|]. apply step_history; [|exact Hc].
    intros n result finished stamp kind started ->.
    destruct He as (cfg & w & ->). apply failed_entry. }
  intros Hes. apply Hgen; [exact Hes | constructor].
Qed.

(** X25: the time that [getNextExecution] formats is the first midnight
    UTC strictly after now: a multiple of a day, later than now by at most
    a day, and no other midnight after now is earlier; at midnight sharp it
    is the next one. *)
Theorem nextRun_first_midnight (current : Z) :
  (current < nextRun current <= current + msPerDay)%Z /\
  (nextRun current mod msPerDay = 0)%Z /\
  (forall midnight,
     (midnight mod msPerDay = 0)%Z -> (current < midnight)%Z ->
     (nextRun current <= midnight)%Z).
Proof.
  unfold nextRun, msPerDay.
  pose proof (Z.div_mod (current + 86400000) 86400000 ltac:(lia)) as Hdm.
  pose proof (Z.mod_pos_bound (current + 86400000) 86400000 ltac:(lia)) as Hb.
  split; [lia|]. split; [apply Z.mod_mul; lia|].
  intros midnight Hmid Hlt.
  apply Z.mod_divide in Hmid; [|lia]. destruct Hmid as [q ->].
  assert ((current + 86400000) / 86400000 <= q)%Z; [|nia].
  assert ((current + 86400000) / 86400000 < q + 1)%Z; [|lia].
  apply Z.div_lt_upper_bound; lia.
Qed.

End SchedulerTraces.

Section ServerProperties.
Context {H : Host}.
Import SchedulerService Server.

Lemma advance_startup_job (p : Process) (h : Happening) :
  is_sigterm h = false ->
  job (service (startup (fst (advance p h)))) = job (service (startup p)).
Proof.
  intros Hh. destruct p as [[[j r hist] susp] a].
  destruct h as [t|t|t| | | |n result finished stamp|n result finished stamp];
    try discriminate; unfold advance, on_startup, on_api; cbn -[firstn step].
  - destruct j; [|reflexivity]. cbn. destruct r; reflexivity.
  - destruct (job (service a)); [|reflexivity].
    destruct (step a (CronFires t)); reflexivity.
  - destruct (step a (ManualRequest t)); reflexivity.
  - destruct (step a CallStart); reflexivity.
  - destruct (step a CallStop); reflexivity.
  - cbn -[firstn]. destruct (nth_error susp n) as [q|]; [|reflexivity].
    destruct (trigger q); [reflexivity|].
    unfold runManual_resume. destruct result; reflexivity.
  - destruct (step a (RunSettles n result finished stamp)); reflexivity.
Qed.

(** X27: no request stops the nightly job: whatever is posted to the
    router, [/scheduler/stop] included, the scheduler of [index.js] holds
    its cron job until the SIGTERM handler runs. *)
Theorem api_cannot_stop_nightly_job (hs : list Happening) :
  forallb (fun h => negb (is_sigterm h)) hs = true ->
  job (service (startup (play launch hs))) = true.
Proof.
  assert (Hgen : forall p,
             forallb (fun h => negb (is_sigterm h)) hs = true ->
             job (service (startup (play p hs))) = job (service (startup p))).
  { induction hs as [|h hs IH]; intros p Hhs; [reflexivity|].
    cbn [forallb] in Hhs. apply andb_true_iff in Hhs as [Hh Hrest].
    cbn [play]. rewrite IH by exact Hrest.
    apply advance_startup_job. destruct (is_sigterm h); [discriminate|].
    reflexivity. }
  intros Hhs. rewrite Hgen by exact Hhs. reflexivity.
Qed.

Lemma advance_gates (p : Process) (h : Happening) :
  gate_consistent (startup p) /\ gate_consistent (api p) ->
  gate_consistent (startup (fst (advance p h))) /\
  gate_consistent (api (fst (advance p h))).
Proof.
  intros [Hs Ha].
  assert (Hon_s : forall e,
            gate_consistent (startup (fst (on_startup p e))) /\
            gate_consistent (api (fst (on_startup p e)))).
  { intros e. unfold on_startup.
    pose proof (step_preserves_gate (startup p) e Hs) as Hstep.
    destruct (step (startup p) e). split; [exact Hstep | exact Ha]. }
  assert (Hon_a : forall e,
            gate_consistent (startup (fst (on_api p e))) /\
            gate_consistent (api (fst (on_api p e)))).
  { intros e. unfold on_api.
    pose proof (step_preserves_gate (api p) e Ha) as Hstep.
    destruct (step (api p) e). split; [exact Hs | exact Hstep]. }
  destruct h; unfold advance; auto.
  - destruct (job (service (startup p))); auto.
  - destruct (job (service (api p))); auto.
Qed.

Lemma play_gates (hs : list Happening) (p : Process) :
  gate_consistent (startup p) /\ gate_consistent (api p) ->
  gate_consistent (startup (play p hs)) /\ gate_consistent (api (play p hs)).
Proof.
  revert p. induction hs as [|h hs IH]; intros p Hp; [exact Hp|].
  cbn [play]. apply IH, advance_gates, Hp.
Qed.

Lemma launch_gates :
  gate_consistent (startup launch) /\ gate_consistent (api launch).
Proof. split; right; split; reflexivity. Qed.

(** X26: the guard against overlapping runs does not span the process:
    the nightly job belongs to the scheduler of [index.js], the requests
    go to the scheduler of the router, so a [POST /etl/run] that arrives
    while a nightly run is in flight is accepted and there are two runs in
    flight at once. *)
Theorem manual_run_beside_nightly_run (hs : list Happening) (t : Z) :
  let p := play launch hs in
  running (service (startup p)) = true ->
  running (service (api p)) = false ->
  let p' := fst (advance p (PostEtlRun t)) in
  snd (advance p (PostEtlRun t)) = Nothing /\
  (exists nightly, suspended (startup p') = [nightly]) /\
  suspended (api p') = [{| trigger := Manual; started_at := t |}].
Proof.
  intros p Hs Ha p'. subst p'.
  destruct (play_gates hs launch launch_gates) as [Gs Ga]. fold p in Gs, Ga.
  destruct Gs as [[_ [nightly Hn]] | [Hs' _]]; [|congruence].
  destruct Ga as [[Ha' _] | [_ Hnone]]; [congruence|].
  unfold advance, on_api, step, runManual_enter. rewrite Ha. cbn.
  rewrite Hnone. repeat split. exists nightly. exact Hn.
Qed.

Lemma remove_nth_Forall {A} (P : A -> Prop) (n : nat) (l : list A) :
  Forall P l -> Forall P (remove_nth n l).
Proof.
  revert n. induction l as [|x l IH]; intros n Hl; [destruct n; constructor|].
  inversion Hl; subst. destruct n; cbn [remove_nth]; auto.
Qed.

Lemma nth_error_Forall {A} (P : A -> Prop) (n : nat) (l : list A) (x : A) :
  Forall P l -> nth_error l n = Some x -> P x.
Proof.
  intros Hl Hn. rewrite Forall_forall in Hl. eapply Hl, nth_error_In, Hn.
Qed.

Lemma advance_manual_only (p : Process) (h : Happening) :
  is_scheduler_start h = false ->
  manual_only (api p) -> manual_only (api (fst (advance p h))).
Proof.
  intros Hh (Hjob & Hsusp & Hhist).
  destruct p as [s [[j r hist] susp]]. cbn [api service job suspended history] in *.
  subst j.
  destruct h as [t|t|t| | | |n result finished stamp|n result finished stamp];
    try discriminate; unfold advance, on_startup, on_api;
    cbn -[firstn step].
  - destruct (job (service s)); [|repeat split; assumption].
    destruct (step s (CronFires t)). repeat split; assumption.
  - repeat split; assumption.
  - cbn -[firstn]. unfold runManual_enter. destruct r; cbn -[firstn];
      repeat split; try assumption. constructor; [reflexivity | assumption].
  - repeat split; assumption.
  - destruct (step s CallStop). repeat split; assumption.
  - destruct (step s (RunSettles n result finished stamp)).
    repeat split; assumption.
  - cbn -[firstn]. destruct (nth_error susp n) as [q|] eqn:Hq;
      [|repeat split; assumption].
    rewrite (nth_error_Forall _ _ _ _ Hsusp Hq). unfold runManual_resume.
    assert (Hnew : Forall is_manual
              (firstn 10
                 (outcome_entry (Some (str "manual")) (started_at q)
                    finished stamp result :: hist))).
    { apply Forall_firstn. constructor; [|exact Hhist].
      destruct result; reflexivity. }
    destruct result; cbn -[firstn]; repeat split; try exact Hnew;
      apply remove_nth_Forall, Hsusp.
Qed.

(** X28: as long as nobody posts to [/scheduler/start], the scheduler
    that the router reports on says that it is not running, although the
    nightly job is scheduled, and its history holds manual runs only: the
    nightly runs are never shown. *)
Theorem router_status_misses_nightly_runs (hs : list Happening) :
  forallb (fun h => negb (is_scheduler_start h)) hs = true ->
  let p := play launch hs in
  fst (fst (getStatus (service (api p)))) = false /\
  Forall is_manual (etl_history p).
Proof.
  assert (Hgen : forall p,
             forallb (fun h => negb (is_scheduler_start h)) hs = true ->
             manual_only (api p) -> manual_only (api (play p hs))).
  { induction hs as [|h hs IH]; intros p Hhs Hp; [exact Hp|].
    cbn [forallb] in Hhs. apply andb_true_iff in Hhs as [Hh Hrest].
    cbn [play]. apply IH; [exact Hrest|].
    apply advance_manual_only; [|exact Hp].
    destruct (is_scheduler_start h); [discriminate | reflexivity]. }
  intros Hhs p.
  destruct (Hgen launch Hhs) as (Hjob & _ & Hhist).
  { repeat split; constructor. }
  fold p in Hjob, Hhist. split; [exact Hjob|].
  unfold etl_history, getStatus. cbn [snd]. apply Forall_firstn, Hhist.
Qed.

End ServerProperties.

(** * Concrete runs *)

#[local] Existing Instance sample_host.

(** C1: the network delivers a well-formed array of one university and
    the disk never fails, yet [run] does not return a result: it throws
    the TypeError of calling [this.extract.validateData], after one
    request and before anything is written. *)
Theorem run_throws_after_extraction :
  let w := world_answering (fun _ => Resolved (JArr [test_university])) in
  ExtractService.extractData ExtractService.default_config (snd (now w))
    = (Ok (JArr [test_university]), snd (axios (snd (now w)))) /\
  ExtractService.validateExtractedData (JArr [test_university]) = Ok true /\
  fst (ETLService.run ExtractService.default_config w)
    = Throw (TypeError (NotAFunction "this.extract.validateData")) /\
  jsonFile (disk (snd (ETLService.run ExtractService.default_config w))) = None.
Proof. cbv zeta. repeat split; vm_compute; reflexivity. Qed.

(** C2: the row of a canonical record whose [stateProvince] is
    "California" and whose [lastUpdated] is set has nothing in its fifth
    and eighth columns, which the header names [state] and [updatedAt]. *)
Theorem csv_loses_state_and_date :
  fst (TransformService.transformRecord stanford_raw 0
         (world_answering (fun _ => Resolved JNull))) = Ok stanford_canonical /\
  get stanford_canonical (str "stateProvince") = JStr (str "California") /\
  LoadService.csv_text [stanford_canonical]
  = Ok (str "id,name,country,alphaCode,state,domains,webPages,updatedAt"
        ++ [newline]
        ++ str "united-states-california-stanford-university,Stanford University,United States,US,,stanford.edu,https://www.stanford.edu,").
Proof. repeat split; vm_compute; reflexivity. Qed.

(** C3, counterexample: the first element has a [name] and a [country]
    that are present and empty, and the validator answers true. *)
Lemma validator_accepts_empty_fields :
  let sample : @JsValue sample_host :=
    JObj [(str "name", JStr []); (str "country", JStr [])] in
  get sample (str "name") = JStr [] /\
  ExtractService.validateExtractedData (JArr [sample]) = Ok true /\
  ExtractService.validateExtractedData (JArr [sample]) <> Ok false.
Proof. cbv zeta. repeat split; [vm_compute; discriminate]. Qed.

(** C7, counterexample: for the name "!" and the country "US" the id is
    "us", not the slug of the country, a hyphen and the slug of the
    name. *)
Lemma id_skips_empty_slug :
  TransformService.generateId punctuation_name = Ok (str "us") /\
  slugify (str "US") ++ [hyphen] ++ slugify (str "!") = str "us-" /\
  TransformService.generateId punctuation_name
  <> Ok (slugify (str "US") ++ [hyphen] ++ slugify (str "!")).
Proof. repeat split; [vm_compute; discriminate]. Qed.

(** C8, counterexample: with the default base of 1000 and cap of 10000,
    the delay of attempt 5 is 10000, below [1000 * 2^4]. *)
Lemma fifth_delay_below_interval :
  (ExtractService.retry_delay ExtractService.default_config 5 0 == 10000)%Q /\
  ~ (1000 * 2 ^ (5 - 1) <= ExtractService.retry_delay
                             ExtractService.default_config 5 0)%Q.
Proof. split; [reflexivity | vm_compute; intros Hle; apply Hle; reflexivity]. Qed.

(** ** The theorems at concrete inputs *)

(** C5 at the configuration a first manual request leaves behind. *)
Lemma gate_witness :
  let c := SchedulerService.run_events SchedulerService.boot
             [SchedulerService.ManualRequest 0%Z] in
  SchedulerService.running (SchedulerService.service c) = true /\
  forall t,
    SchedulerService.step c (SchedulerService.ManualRequest t)
    = (c, SchedulerService.Rejected (Error (str "ETL already running"))).
Proof.
  intros c. split; [reflexivity|].
  exact (proj1 (gate_rejects_and_is_released
                  [SchedulerService.ManualRequest 0%Z] eq_refl)).
Defined.

(** C6 at the default configuration and a network that never answers. *)
Lemma extraction_failure_witness :
  let w := world_answering (fun _ => Rejected (WithRequest (str "timeout"))) in
  (1 <= ExtractService.retryAttempts ExtractService.default_config)%Z /\
  exists w',
    ExtractService.extractData ExtractService.default_config w
    = (Throw (Error (str "Failed to extract data after 3 attempts: No response received from API: timeout")), w') /\
    requests_made w' = 3.
Proof.
  intros w.
  assert (Hpos : (1 <= ExtractService.retryAttempts
                         ExtractService.default_config)%Z) by (simpl; lia).
  split; [exact Hpos|].
  destruct (proj2 (extractData_failure ExtractService.default_config w Hpos))
    as (cause & w' & Hcause & Hrun & Hcount).
  - intros k _. discriminate.
  - exists w'. split; [|exact Hcount].
    rewrite Hrun. vm_compute in Hcause. injection Hcause as <-. reflexivity.
Defined.

(** C7 at a record with a state-province. *)
Lemma slug_witness :
  get stanford_raw (str "name") = JStr (str "Stanford University") /\
  exists id,
    TransformService.generateId stanford_raw = Ok id /\
    starts_with_hyphen id = false /\
    ends_with_hyphen id = false /\
    has_double_hyphen id = false /\
    id = join [hyphen]
           (filter nonempty
              ([slugify (str "United States")]
               ++ state_slug (get stanford_raw (str "state-province"))
               ++ [slugify (str "Stanford University")])).
Proof.
  split; [reflexivity|].
  apply (generateId_slug stanford_raw (str "Stanford University")
           (str "United States")); [reflexivity | reflexivity |].
  intros _. reflexivity.
Defined.

(** C8 at the first attempt of the default configuration: the delay lies
    in [[1000, 2000]]. *)
Lemma first_delay_witness :
  let w := world_answering (fun _ => Resolved JNull) in
  (0 <= next_random w)%Q /\ (next_random w < 1)%Q /\
  exists d w',
    ExtractService.calculateRetryDelay ExtractService.default_config 1 w
    = (Ok d, w') /\
    (1000 <= d)%Q /\ (d <= 2000)%Q /\ (d <= 10000)%Q.
Proof.
  intros w.
  assert (Hlo : (0 <= next_random w)%Q) by (vm_compute; discriminate).
  assert (Hhi : (next_random w < 1)%Q) by reflexivity.
  split; [exact Hlo|]. split; [exact Hhi|].
  destruct (calculateRetryDelay_bounds ExtractService.default_config 1 w
              Hlo Hhi) as (d & w' & Hrun & _ & _ & Hcap & Hfit).
  exists d, w'. split; [exact Hrun|].
  destruct Hfit as [Hmin Hmax]; [vm_compute; discriminate|].
  split; [|split; [|exact Hcap]].
  - apply Qle_trans with (1000 * 2 ^ (1 - 1))%Q;
      [vm_compute; discriminate | exact Hmin].
  - apply Qle_trans with (1000 * 2 ^ (1 - 1) + 1000)%Q;
      [exact Hmax | vm_compute; discriminate].
Defined.

(** C9 at two indices and two times. *)
Lemma repeat_witness :
  let w := world_answering (fun _ => Resolved JNull) in
  fst (TransformService.transformRecord stanford_raw 0 w)
    = Ok stanford_canonical /\
  exists r2 w2',
    TransformService.transformRecord stanford_raw 4 (snd (now w))
      = (Ok r2, w2') /\
    get stanford_canonical (str "id") = get r2 (str "id") /\
    get r2 (str "lastUpdated") = JStr (str "T1").
Proof.
  intros w.
  assert (Hfirst : TransformService.transformRecord stanford_raw 0 w
                   = (Ok stanford_canonical, snd (now w)))
    by (vm_compute; reflexivity).
  split; [rewrite Hfirst; reflexivity|].
  destruct (transformRecord_repeatable stanford_raw 0 4 w (snd (now w))
              (snd (now w)) stanford_canonical Hfirst)
    as (r2 & w2' & Hr2 & Hid & _ & _ & Hstamp).
  exists r2, w2'. repeat split; assumption.
Defined.

(** C10 at a record whose [domains] is a string and whose [web_pages] is
    a number. *)
Lemma scalar_lists_witness :
  let w := world_answering (fun _ => Resolved JNull) in
  isArray (get scalar_lists (str "domains")) = false /\
  isArray (get scalar_lists (str "web_pages")) = false /\
  exists r w',
    TransformService.transformRecord scalar_lists 0 w = (Ok r, w') /\
    get r (str "domains") = JArr [] /\
    get r (str "webPages") = JArr [].
Proof.
  intros w. split; [reflexivity|]. split; [reflexivity|].
  destruct (TransformService.transformRecord scalar_lists 0 w)
    as [[r|e] w'] eqn:Hr; [|vm_compute in Hr; discriminate].
  exists r, w'. split; [reflexivity|].
  destruct (malformed_list_fields scalar_lists 0 w)
    as (Hdomains & Hpages & _).
  split; [apply (Hdomains eq_refl r w') | apply (Hpages eq_refl r w')];
    exact Hr.
Defined.

(** ** The further properties at concrete inputs *)

(** X1 at a network that times out once and then answers. *)
Lemma first_success_witness :
  let w := world_answering flaky_network in
  exists w',
    ExtractService.extractData ExtractService.default_config w
    = (Ok (JArr [stanford_raw]), w') /\
    requests_made w' = 2 /\
    List.length (slept w') = 1.
Proof.
  intros w.
  destruct (extractData_first_success ExtractService.default_config w 1)
    as (d & w' & Hd & Hrun & Hcount & Hwaits).
  - reflexivity.
  - intros j Hj. assert (j = 0) as -> by lia. discriminate.
  - reflexivity.
  - exists w'. vm_compute in Hd. injection Hd as <-.
    repeat split; assumption.
Defined.

(** X2 at a network that answers at once. *)
Lemma first_array_witness :
  let w := world_answering (fun _ => Resolved (JArr [stanford_raw])) in
  fst (ExtractService.extractData ExtractService.default_config w)
    = Ok (JArr [stanford_raw]) /\
  isArray (JArr [stanford_raw]) = true.
Proof.
  intros w.
  assert (Hrun : ExtractService.extractData ExtractService.default_config w
                 = (Ok (JArr [stanford_raw]),
                    snd (ExtractService.extractData
                           ExtractService.default_config w)))
    by (vm_compute; reflexivity).
  split; [rewrite Hrun; reflexivity|].
  exact (proj1 (extractData_returns_first_array _ _ _ _ Hrun)).
Defined.

(** X8 at two spellings of one university. *)
Lemma same_words_witness :
  exists id,
    TransformService.generateId stanford_raw = Ok id /\
    TransformService.generateId stanford_shouted = Ok id.
Proof.
  apply (generateId_same_words stanford_raw stanford_shouted
           (str "Stanford University") (str "United States")
           (str "STANFORD -- University!") (str "united   states"));
    try reflexivity; intros _; reflexivity.
Defined.



(** X15 at a disk that holds an earlier, empty batch. *)
Lemma backup_witness :
  let w := world_storing (Some empty_batch) None None in
  quiet_disk w /\
  exists outcome w',
    LoadService.saveData stanford_batch w = (outcome, w') /\
    jsonFile (disk w') = Some stanford_batch /\
    backupFiles (disk w') = [(str "universities-T0.json", empty_batch)].
Proof.
  intros w.
  assert (Hq : quiet_disk w) by (intros k; reflexivity).
  split; [exact Hq|].
  exact (saveData_backs_up stanford_batch w Hq).
Defined.

(** X16 at a disk that holds the batch of Stanford and its table. *)
Lemma empty_batch_witness :
  let w := world_storing (Some stanford_batch)
             (Some (table_of stanford_batch)) None in
  quiet_disk w /\
  exists w',
    LoadService.saveData empty_batch w
    = (Ok {| LoadService.recordsLoaded := 0 |}, w') /\
    jsonFile (disk w') = Some empty_batch /\
    csvFile (disk w') = Some (table_of stanford_batch).
Proof.
  intros w.
  assert (Hq : quiet_disk w) by (intros k; reflexivity).
  split; [exact Hq|].
  exact (saveData_empty_batch empty_batch w Hq eq_refl).
Defined.

(** X17 at a disk whose fourth call, the copy, fails. *)
Lemma backup_failure_witness :
  let w := world_storing (Some empty_batch) None (Some 3) in
  exists w',
    LoadService.saveData stanford_batch w
    = (Ok {| LoadService.recordsLoaded := 1 |}, w') /\
    jsonFile (disk w') = Some stanford_batch /\
    backupFiles (disk w') = [].
Proof.
  intros w.
  apply (saveData_backup_failure stanford_batch empty_batch w
           (table_of stanford_batch) (str "EIO")).
  - reflexivity.
  - vm_compute. reflexivity.
  - reflexivity.
  - intros k Hk. simpl. rewrite Nat.add_0_r.
    destruct (Nat.eqb_spec k 3); [contradiction | reflexivity].
Defined.

(** X18 at an empty disk whose fifth call, the write of the table,
    fails. *)
Lemma table_failure_witness :
  let w := world_storing None None (Some 4) in
  exists w',
    LoadService.saveData stanford_batch w = (Throw (Error (str "EIO")), w') /\
    jsonFile (disk w') = Some stanford_batch /\
    csvFile (disk w') = None.
Proof.
  intros w.
  apply (saveData_table_failure stanford_batch w (table_of stanford_batch)
           (str "EIO")).
  - discriminate.
  - vm_compute. reflexivity.
  - intros k Hk. simpl. rewrite Nat.add_0_r.
    destruct (Nat.eqb_spec k 4); [simpl in Hk; lia | reflexivity].
  - reflexivity.
Defined.

(** X19 at an empty disk. *)
Lemma status_after_save_witness :
  let w := world_storing None None None in
  quiet_disk w /\
  exists w1 w2,
    LoadService.saveData stanford_batch w
    = (Ok {| LoadService.recordsLoaded := 1 |}, w1) /\
    ETLService.getStatus w1
    = (Ok {| ETLService.hasData := true;
             ETLService.recordCount := 1;
             ETLService.lastUpdate := None |}, w2).
Proof.
  intros w.
  assert (Hq : quiet_disk w) by (intros k; reflexivity).
  split; [exact Hq|].
  apply (getStatus_after_saveData stanford_batch w (table_of stanford_batch) Hq).
  vm_compute. reflexivity.
Defined.


(** X22 at the list of the one record of Stanford. *)
Lemma pipeline_witness :
  let w := world_storing None None None in
  quiet_disk w /\
  fst (TransformService.transformData (JArr [stanford_raw]) w)
    = Ok stanford_batch /\
  exists w2,
    LoadService.saveData stanford_batch
      (snd (TransformService.transformData (JArr [stanford_raw]) w))
    = (Ok {| LoadService.recordsLoaded := 1 |}, w2) /\
    jsonFile (disk w2) = Some stanford_batch.
Proof.
  intros w.
  assert (Hq : quiet_disk w) by (intros k; reflexivity).
  assert (Hrun : TransformService.transformData (JArr [stanford_raw]) w
                 = (Ok stanford_batch,
                    snd (TransformService.transformData
                           (JArr [stanford_raw]) w)))
    by (vm_compute; reflexivity).
  split; [exact Hq|]. split; [rewrite Hrun; reflexivity|].
  destruct (transformData_batch_is_saved _ w _ stanford_batch Hq Hrun)
    as (w2 & Hsave & Hjson & _).
  exists w2. split; [exact Hsave | exact Hjson].
Defined.

(** X24 at a manual run that settles with what [run] gives when the
    network answers at once. *)
Lemma failures_only_witness :
  let w := world_answering (fun _ => Resolved (JArr [stanford_raw])) in
  let es := [SchedulerService.ManualRequest 0%Z;
             SchedulerService.RunSettles 0
               (fst (ETLService.run ExtractService.default_config w))
               5%Z 6%Z] in
  Forall produced_by_run es /\
  Forall reports_failure
    (SchedulerService.history
       (SchedulerService.service
          (SchedulerService.run_events SchedulerService.boot es))).
Proof.
  intros w es.
  assert (Hes : Forall produced_by_run es).
  { constructor; [exact I|]. constructor; [|constructor].
    exists ExtractService.default_config, w. reflexivity. }
  split; [exact Hes|].
  exact (history_reports_failures_only es Hes).
Defined.

(** X26 at the process in which the nightly job has just fired. *)
Lemma overlap_witness :
  let p := Server.play Server.launch [Server.StartupCron 0%Z] in
  SchedulerService.running (SchedulerService.service (Server.startup p))
    = true /\
  SchedulerService.running (SchedulerService.service (Server.api p))
    = false /\
  snd (Server.advance p (Server.PostEtlRun 7%Z)) = SchedulerService.Nothing.
Proof.
  intros p. split; [reflexivity|]. split; [reflexivity|].
  exact (proj1 (manual_run_beside_nightly_run [Server.StartupCron 0%Z] 7%Z
                  eq_refl eq_refl)).
Defined.

(** X27 after a post to [/scheduler/stop]. *)
Lemma nightly_job_witness :
  SchedulerService.job
    (SchedulerService.service
       (Server.startup
          (Server.play Server.launch
             [Server.PostSchedulerStop; Server.StartupCron 0%Z])))
  = true.
Proof.
  exact (api_cannot_stop_nightly_job
           [Server.PostSchedulerStop; Server.StartupCron 0%Z] eq_refl).
Defined.

(** X28 after a nightly run and a manual run. *)
Lemma router_status_witness :
  let hs := [Server.StartupCron 0%Z;
             Server.StartupSettles 0
               (Throw (Error (str "Invalid data from API"))) 1%Z 2%Z;
             Server.PostEtlRun 3%Z;
             Server.ApiSettles 0
               (Throw (Error (str "Invalid data from API"))) 4%Z 5%Z] in
  let p := Server.play Server.launch hs in
  List.length (Server.etl_history p) = 1 /\
  Forall is_manual (Server.etl_history p).
Proof.
  intros hs p. split; [reflexivity|].
  exact (proj2 (router_status_misses_nightly_runs hs eq_refl)).
Defined.
